(** * WhisperX batch transcription: the orchestration core of
      [vast_ai_compute_setup/v7process_audio.py]

    The development embeds the pure and the effectful parts of
    [WhisperXProcessor]:

    - the string helpers Python supplies ([str.strip], [str.split],
      [str.join], slices);
    - the naming scheme inlined in [process_all_files];
    - the turn coalescing of [save_conversation] and the text artifact of
      [save_text_format];
    - the metadata lookup [load_metadata], the per-recording pipeline
      [process_audio_file] and the batch loop [process_all_files], written
      in a small exception-and-trace monad.

    Characters are 8-bit code points; Python's whitespace class is taken on
    that range.  Floating point time stamps are carried as rationals and are
    never inspected by the code modelled here. *)

From Stdlib Require QArith.
From Stdlib Require Import Ascii.
From stdpp Require Import base list strings gmap pretty.

Open Scope string_scope.
Open Scope list_scope.

Set Warnings "-register-all".
Set Default Proof Using "Type".

(** ** Python string primitives *)

Module PyStr.

(** [str.isspace] on one code point below 256: TAB..CR, FS..US, SPACE,
    NEL (0x85) and NBSP (0xA0). *)
Definition is_space (c : ascii) : bool :=
  let n := nat_of_ascii c in
  (((9 <=? n) && (n <=? 13)) || ((28 <=? n) && (n <=? 32))
   || (n =? 133) || (n =? 160))%nat.

(** [s.lstrip()] *)
Fixpoint lstrip (s : string) : string :=
  match s with
  | "" => ""
  | String c s' => if is_space c then lstrip s' else s
  end.

(** [s.rstrip()] *)
Fixpoint rstrip (s : string) : string :=
  match s with
  | "" => ""
  | String c s' =>
      match rstrip s' with
      | "" => if is_space c then "" else String c ""
      | r => String c r
      end
  end.

(** [s.strip()] *)
Definition strip (s : string) : string := rstrip (lstrip s).

Definition flush (cur : string) : list string :=
  match cur with "" => [] | _ => [cur] end.

(** [s.split()] with no separator: the maximal runs of non-whitespace.
    [cur] is the word being read. *)
Fixpoint split_go (cur : string) (s : string) : list string :=
  match s with
  | "" => flush cur
  | String c s' =>
      if is_space c then flush cur ++ split_go "" s'
      else split_go (cur +:+ String c "") s'
  end.

Definition split_ws (s : string) : list string := split_go "" s.

(** [s.split(sep)] for a one-character separator: empty fields are kept
    and the result is never empty. *)
Fixpoint split (sep : ascii) (s : string) : list string :=
  match s with
  | "" => [""]
  | String c s' =>
      if decide (c = sep) then "" :: split sep s'
      else match split sep s' with
           | w :: ws => String c w :: ws
           | [] => [String c ""]
           end
  end.

(** [sep.join(parts)] *)
Definition join (sep : string) (parts : list string) : string :=
  String.concat sep parts.

(** [s[i:]] and [s[:j]] and [s[i:j]] for non-negative bounds. *)
Fixpoint drop (i : nat) (s : string) : string :=
  match i, s with
  | O, _ => s
  | S i', String _ s' => drop i' s'
  | S _, "" => ""
  end.

Fixpoint take (j : nat) (s : string) : string :=
  match j, s with
  | S j', String c s' => String c (take j' s')
  | _, _ => ""
  end.

Definition slice (i j : nat) (s : string) : string := take (j - i) (drop i s).

(** " ".join(s.split()): runs of whitespace collapsed, ends trimmed. *)
Definition normalize_ws (s : string) : string := join " " (split_ws s).

(** All whitespace deleted. *)
Fixpoint remove_ws (s : string) : string :=
  match s with
  | "" => ""
  | String c s' => if is_space c then remove_ws s' else String c (remove_ws s')
  end.

(** [needle in haystack] for strings. *)
Fixpoint contains (needle haystack : string) : bool :=
  String.prefix needle haystack
  || match haystack with
     | "" => false
     | String _ h' => contains needle h'
     end.

End PyStr.

(** ** Naming scheme (the body of the [try] in [process_all_files]) *)

Module Naming.
Import PyStr.

(** [filename_parts[2:-2]] *)
Definition event_parts (filename_parts : list string) : list string :=
  list.drop 2 (list.take (length filename_parts - 2) filename_parts).

(** [filename_parts[-2]]; only evaluated under [len(filename_parts) >= 6]. *)
Definition date_part (filename_parts : list string) : string :=
  nth (length filename_parts - 2) filename_parts "".

Definition formatted_date (date_str : string) : string :=
  take 4 date_str +:+ "-" +:+ slice 4 6 date_str +:+ "-" +:+ drop 6 date_str.

(** The event identity read off a stem: [None] when the stem has fewer
    than six underscore-separated parts. *)
Definition parse_event (stem : string) : option (string * string) :=
  let filename_parts := split "_" stem in
  if (6 <=? length filename_parts)%nat then
    Some (join "_" (event_parts filename_parts),
          formatted_date (date_part filename_parts))
  else None.

Definition dir_name (stem : string) : string :=
  let filename_parts := split "_" stem in
  if (6 <=? length filename_parts)%nat then
    let event_name := join "_" (event_parts filename_parts) in
    let date_str := date_part filename_parts in
    event_name +:+ "_" +:+ formatted_date date_str
  else stem.

End Naming.

(** ** Segments, turns and the artifacts derived from them *)

Abbreviation Q := QArith_base.Q.

(** One element of [result["segments"]]; the key ['speaker'] may be absent.
    Speaker labels, and the names a speaker mapping sends them to, are
    strings, as the data model has them. *)
Record Segment := mkSegment {
  seg_start : Q;
  seg_end : Q;
  seg_text : string;
  seg_speaker : option string
}.

(** One element of the list written to [<stem>_conversation.json]. *)
Record Turn := mkTurn {
  speaker : string;
  text : string
}.

Module Conversation.
Import PyStr.

(** [speaker = segment.get('speaker', 'Unknown')] followed by
    [speaker = speaker_mapping.get(speaker, speaker)]. *)
Definition mapped_speaker (speaker_mapping : gmap string string)
    (segment : Segment) : string :=
  let speaker := default "Unknown" (seg_speaker segment) in
  default speaker (speaker_mapping !! speaker).

(** The loop variables of [save_conversation]:
    [conversation], [current_speaker] (initially [None]) and
    [current_text]. *)
Record loop_state := mkLoop {
  conversation : list Turn;
  current_speaker : option string;
  current_text : string
}.

Definition loop_init : loop_state := mkLoop [] None "".

(** One iteration of [for segment in result["segments"]]. *)
Definition loop_body (speaker_mapping : gmap string string)
    (st : loop_state) (segment : Segment) : loop_state :=
  let speaker := mapped_speaker speaker_mapping segment in
  let text := strip (seg_text segment) in
  if decide (Some speaker ≠ current_speaker st) then
    let conversation' :=
      match current_speaker st with
      | Some cs => conversation st ++ [mkTurn cs (strip (current_text st))]
      | None => conversation st
      end in
    mkLoop conversation' (Some speaker) (text +:+ " ")
  else
    mkLoop (conversation st) (current_speaker st)
           (current_text st +:+ text +:+ " ").

(** The statement after the loop:
    [if current_speaker is not None and current_text: ...]. *)
Definition loop_finish (st : loop_state) : list Turn :=
  match current_speaker st with
  | Some cs =>
      if decide (current_text st ≠ "")
      then conversation st ++ [mkTurn cs (strip (current_text st))]
      else conversation st
  | None => conversation st
  end.

(** The list [conversation] that [save_conversation] dumps. *)
Definition save_conversation (segments : list Segment)
    (speaker_mapping : gmap string string) : list Turn :=
  loop_finish (foldl (loop_body speaker_mapping) loop_init segments).

(** The successive [f.write] calls of [save_text_format]. *)
Definition text_line (speaker_mapping : gmap string string)
    (segment : Segment) : string :=
  let speaker := mapped_speaker speaker_mapping segment in
  let text := strip (seg_text segment) in
  speaker +:+ ": " +:+ text +:+ String "010" "".

Definition save_text_format_writes (segments : list Segment)
    (speaker_mapping : gmap string string) : list string :=
  foldl (fun written segment => written ++ [text_line speaker_mapping segment])
        [] segments.

(** The content of [<stem>.txt] once the file is closed. *)
Definition save_text_format (segments : list Segment)
    (speaker_mapping : gmap string string) : string :=
  join "" (save_text_format_writes segments speaker_mapping).

(** The text file the interface section describes: one line per turn. *)
Definition turn_line (t : Turn) : string :=
  speaker t +:+ ": " +:+ text t +:+ String "010" "".

Definition turn_text_file (turns : list Turn) : string :=
  join "" (map turn_line turns).

End Conversation.

Module Scenario.

Definition q (n : Z) : Q := QArith_base.Qmake n 1.

Definition segments : list Segment :=
  [ mkSegment (q 0) (q 1) "Hi" (Some "S1");
    mkSegment (q 1) (q 2) "there" (Some "S1");
    mkSegment (q 2) (q 3) "Bye" (Some "S2") ].

Definition speaker_map : gmap string string :=
  <["S1" := "Alice"]> (<["S2" := "Bob"]> ∅).

End Scenario.

(** ** Python values read from JSON *)

(** What [json.load] returns.  [JNull] is Python's [None]; an object is kept
    as its list of items (keys distinct, first binding looked up). *)
Inductive json :=
| JNull
| JBool (b : bool)
| JInt (z : Z)
| JReal (r : Q)
| JStr (s : string)
| JArr (items : list json)
| JObj (items : list (string * json)).

Inductive exn :=
| OSError
| JSONDecodeError
| TypeError
| KeyError
| RuntimeError.

Inductive result (A : Type) :=
| Ok (a : A)
| Raise (e : exn).
Arguments Ok {A} a.
Arguments Raise {A} e.

Module Py.

(** [bool(v)] *)
Definition truthy (v : json) : bool :=
  match v with
  | JNull => false
  | JBool b => b
  | JInt z => negb (z =? 0)%Z
  | JReal r => negb (QArith_base.Qnum r =? 0)%Z
  | JStr s => negb (String.eqb s "")
  | JArr items => negb (bool_decide (items = []))
  | JObj items => negb (bool_decide (items = []))
  end.

Definition is_str (key : string) (v : json) : bool :=
  match v with JStr s => String.eqb key s | _ => false end.

Definition has_key (key : string) (items : list (string * json)) : bool :=
  existsb (fun kv => String.eqb key (fst kv)) items.

Fixpoint lookup_key (key : string) (items : list (string * json)) : option json :=
  match items with
  | [] => None
  | (k, v) :: rest => if String.eqb key k then Some v else lookup_key key rest
  end.

(** [key in v] for a string [key] *)
Definition contains (key : string) (v : json) : result bool :=
  match v with
  | JObj items => Ok (has_key key items)
  | JArr items => Ok (existsb (is_str key) items)
  | JStr s => Ok (PyStr.contains key s)
  | _ => Raise TypeError
  end.

(** [v[key]] for a string [key] *)
Definition getitem (v : json) (key : string) : result json :=
  match v with
  | JObj items =>
      match lookup_key key items with
      | Some x => Ok x
      | None => Raise KeyError
      end
  | _ => Raise TypeError
  end.

Fixpoint chars (s : string) : list json :=
  match s with
  | "" => []
  | String c s' => JStr (String c "") :: chars s'
  end.

(** [for x in v] *)
Definition iter (v : json) : result (list json) :=
  match v with
  | JArr items => Ok items
  | JObj items => Ok (map (fun kv => JStr (fst kv)) items)
  | JStr s => Ok (chars s)
  | _ => Raise TypeError
  end.

End Py.

(** ** Paths *)

(** An absolute [pathlib.Path], as its components below the root. *)
Definition Path := list string.

Module PathLib.

Definition parent (p : Path) : Path := removelast p.
Definition name (p : Path) : string := default "" (last p).
Definition child (p : Path) (component : string) : Path := p ++ [component].

(** [name.rfind('.')] *)
Fixpoint rfind (c : ascii) (s : string) : option nat :=
  match s with
  | "" => None
  | String a s' =>
      match rfind c s' with
      | Some i => Some (S i)
      | None => if decide (a = c) then Some 0%nat else None
      end
  end.

(** [Path.stem]: the name up to its last dot, unless that dot is the
    first or the last character. *)
Definition stem (p : Path) : string :=
  let name := name p in
  match rfind "." name with
  | Some i =>
      if ((0 <? i) && (i <? String.length name - 1))%nat
      then PyStr.take i name else name
  | None => name
  end.

(** [str(path)] *)
Definition to_str (p : Path) : string := "/" +:+ PyStr.join "/" p.

End PathLib.

(** ** Effects: a trace of observable events and Python exceptions *)

Inductive model := ASR | ALIGNER | DIARIZER.

Inductive stage := Load | Transcribe | Align | Diarize | Label.

Inductive event :=
| EvExists (location : Path)            (* [location.exists()] *)
| EvOpen (location : Path)              (* [open(location, 'r')] *)
| EvLogWarning (wav_file : Path)        (* [logging.warning] *)
| EvLogError (wav_file : Path)          (* [logging.error] *)
| EvCall (s : stage)                    (* a gateway stage is invoked *)
| EvDiarizeBounds (min_speakers max_speakers : json)
| EvBind (m : model)                    (* a model instance is created and bound *)
| EvDel (m : model)                     (* [del model] *)
| EvGcCollect
| EvEmptyCache
| EvMkdir (output_dir : Path)
| EvWrite (output_file : Path)          (* [open(output_file, 'w')] *)
| EvBanner (i n : nat)                  (* [print("[File i/n]")] *)
| EvDefaulted.                          (* the "defaulting to 2 speakers" notice *)

(** A computation emits events and either returns or raises. *)
Definition M (A : Type) : Type := list event * result A.

Definition trace {A} (m : M A) : list event := fst m.
Definition outcome {A} (m : M A) : result A := snd m.

Global Instance M_ret : MRet M := fun A a => ([], Ok a).
Global Instance M_bind : MBind M := fun A B f m =>
  match snd m with
  | Ok a => let r := f a in (fst m ++ fst r, snd r)
  | Raise e => (fst m, Raise e)
  end.

Definition emit (e : event) : M unit := ([e], Ok tt).
Definition lift {A} (r : result A) : M A := ([], r).

(** [try: body  except Exception as e: handler e] *)
Definition try_except {A} (body : M A) (handler : exn -> M A) : M A :=
  match snd body with
  | Ok a => body
  | Raise e => let r := handler e in (fst body ++ fst r, snd r)
  end.

(** ** The environment: sidecar files, directories and the model gateway *)

(** What lies at a sidecar location. *)
Inductive file_state :=
| Missing                 (* [location.exists()] is false *)
| Unreadable              (* exists, [open] raises *)
| Garbled                 (* opens, [json.load] raises *)
| Parsed (v : json).      (* [json.load] returns [v] *)

Definition Audio := list Z.
Definition Diarization := list (Q * Q * string).

(** The opaque collaborators.  Each call either returns or raises; calls
    that take no per-recording argument in the source are indexed by the
    recording being processed, so their outcome may differ between files. *)
Record World := mkWorld {
  fs : Path -> file_state;
  mkdir : Path -> result unit;
  open_write : Path -> result unit;
  load_audio : Path -> result Audio;
  load_model : Path -> result unit;
  transcribe : Audio -> result (list Segment);
  load_align_model : Path -> result json;
  align : list Segment -> json -> Audio -> result (list Segment);
  DiarizationPipeline : Path -> result unit;
  diarize : Audio -> json -> json -> result Diarization;
  assign_word_speakers : Diarization -> list Segment -> result (list Segment)
}.

Definition workspace_dir : Path := ["workspace"; "audio"].
Definition output_base_dir : Path := PathLib.child workspace_dir "audio-only".

Definition file_exists (st : file_state) : bool :=
  match st with Missing => false | _ => true end.

(** [with open(location, 'r') as f: json.load(f)] *)
Definition read_json (st : file_state) : result json :=
  match st with
  | Missing | Unreadable => Raise OSError
  | Garbled => Raise JSONDecodeError
  | Parsed v => Ok v
  end.

Section Processor.
Context (w : World).

(** *** [load_metadata] *)

Definition metadata_locations (wav_file : Path) : list (Path * string) :=
  let sidecar := PathLib.stem wav_file +:+ "_metadata.json" in
  [ (PathLib.child (PathLib.parent wav_file) sidecar, "parent directory");
    (PathLib.child workspace_dir sidecar, "workspace root");
    (PathLib.child (PathLib.child output_base_dir (PathLib.stem wav_file)) sidecar,
     "output directory") ].

(** The [for location, desc in metadata_locations] loop and the two
    statements after it. *)
Fixpoint search_locations (wav_file : Path) (locations : list (Path * string))
    : M (json * string) :=
  match locations with
  | [] => emit (EvLogWarning wav_file);; mret (JNull, "")
  | (location, desc) :: rest =>
      emit (EvExists location);;
      if file_exists (fs w location) then
        emit (EvOpen location);;
        metadata ← lift (read_json (fs w location));
        found ← lift (Py.contains "speaker_count" metadata);
        if found : bool then
          (* the log line formats [metadata['speaker_count']] *)
          _ ← lift (Py.getitem metadata "speaker_count");
          mret (metadata, PathLib.to_str location)
        else search_locations wav_file rest
      else search_locations wav_file rest
  end.

Definition load_metadata (wav_file : Path) : M (json * string) :=
  try_except
    (search_locations wav_file (metadata_locations wav_file))
    (fun e => emit (EvLogError wav_file);; mret (JNull, "")).

(** *** [process_audio_file] *)

(** [for attendee in metadata['attendees']: print(attendee['name'])] *)
Fixpoint print_attendees (attendees : list json) : M unit :=
  match attendees with
  | [] => mret tt
  | attendee :: rest =>
      _ ← lift (Py.getitem attendee "name");
      print_attendees rest
  end.

(** The statements between the call of [load_metadata] and the [try]. *)
Definition resolve_speaker_count (metadata : json) : M json :=
  has_count ← (if Py.truthy metadata
               then lift (Py.contains "speaker_count" metadata)
               else mret false);
  if has_count : bool then
    speaker_count ← lift (Py.getitem metadata "speaker_count");
    has_attendees ← lift (Py.contains "attendees" metadata);
    (if has_attendees : bool then
       attendees ← lift (Py.getitem metadata "attendees");
       attendees ← lift (Py.iter attendees);
       print_attendees attendees
     else mret tt);;
    mret speaker_count
  else
    emit EvDefaulted;;
    mret (JInt 2).

(** [speaker_mapping[f'SPEAKER_{i}'] = attendee['name']] over
    [enumerate(metadata['attendees'], 1)]. *)
Fixpoint fill_speaker_mapping (i : nat) (attendees : list json)
    (speaker_mapping : gmap string json) : M (gmap string json) :=
  match attendees with
  | [] => mret speaker_mapping
  | attendee :: rest =>
      name ← lift (Py.getitem attendee "name");
      fill_speaker_mapping (S i) rest
        (<["SPEAKER_" +:+ pretty i := name]> speaker_mapping)
  end.

(** The three writers open their file for writing; what they put in it is
    given by [Conversation]. *)
Definition write_artifact (output_file : Path) : M unit :=
  emit (EvWrite output_file);;
  lift (open_write w output_file).

Definition save_results (result : list Segment) (audio_path output_dir : Path)
    (metadata : json) : M unit :=
  let base_name := PathLib.stem audio_path in
  has_attendees ← (if Py.truthy metadata
                   then lift (Py.contains "attendees" metadata)
                   else mret false);
  speaker_mapping ←
    (if has_attendees : bool then
       attendees ← lift (Py.getitem metadata "attendees");
       attendees ← lift (Py.iter attendees);
       fill_speaker_mapping 1 attendees ∅
     else mret ∅);
  write_artifact (PathLib.child output_dir (base_name +:+ ".json"));;
  write_artifact (PathLib.child output_dir (base_name +:+ "_conversation.json"));;
  write_artifact (PathLib.child output_dir (base_name +:+ ".txt")).

(** The body of the [try] in [process_audio_file]. *)
Definition run_stages (audio_path output_dir : Path) (speaker_count : json)
    : M bool :=
  emit (EvCall Load);;
  audio ← lift (load_audio w audio_path);
  lift (load_model w audio_path);;
  emit (EvBind ASR);;
  emit (EvCall Transcribe);;
  result ← lift (transcribe w audio);
  (* [model_a, metadata = whisperx.load_align_model(...)] rebinds [metadata] *)
  metadata ← lift (load_align_model w audio_path);
  emit (EvBind ALIGNER);;
  emit (EvCall Align);;
  result ← lift (align w result metadata audio);
  emit (EvDel ASR);;
  emit (EvDel ALIGNER);;
  emit EvGcCollect;;
  emit EvEmptyCache;;
  lift (DiarizationPipeline w audio_path);;
  emit (EvBind DIARIZER);;
  emit (EvCall Diarize);;
  emit (EvDiarizeBounds speaker_count speaker_count);;
  diarize_segments ← lift (diarize w audio speaker_count speaker_count);
  emit (EvCall Label);;
  result ← lift (assign_word_speakers w diarize_segments result);
  save_results result audio_path output_dir metadata;;
  mret true.

Definition process_audio_file (audio_path output_dir : Path) : M bool :=
  '(metadata, metadata_location) ← load_metadata audio_path;
  speaker_count ← resolve_speaker_count metadata;
  try_except
    (run_stages audio_path output_dir speaker_count)
    (fun e => emit (EvLogError audio_path);; mret false).

(** *** [process_all_files] *)

(** One iteration of the loop over [enumerate(wav_files, 1)]; the counters
    [successful] and [failed] are threaded through. *)
Definition process_one (n i : nat) (wav_path : Path) (counters : nat * nat)
    : M (nat * nat) :=
  let '(successful, failed) := counters in
  emit (EvBanner i n);;
  try_except
    (let output_dir := PathLib.child output_base_dir
                         (Naming.dir_name (PathLib.stem wav_path)) in
     emit (EvMkdir output_dir);;
     lift (mkdir w output_dir);;
     ok ← process_audio_file wav_path output_dir;
     mret (if ok : bool then (S successful, failed) else (successful, S failed)))
    (fun e => emit (EvLogError wav_path);; mret (successful, S failed)).

Fixpoint batch_loop (n i : nat) (wav_files : list Path) (counters : nat * nat)
    : M (nat * nat) :=
  match wav_files with
  | [] => mret counters
  | wav_path :: rest =>
      counters ← process_one n i wav_path counters;
      batch_loop n (S i) rest counters
  end.

(** [wav_files] is the result of [workspace_dir.glob("*.wav")].  The
    function returns nothing in the source; here it returns the counters
    of the summary it prints, or [None] when it found no file. *)
Definition process_all_files (wav_files : list Path) : M (option (nat * nat)) :=
  match wav_files with
  | [] => mret None
  | _ =>
      counters ← batch_loop (length wav_files) 1 wav_files (0, 0)%nat;
      mret (Some counters)
  end.

End Processor.

(** ** Loop invariants of [save_conversation] *)

Module Invariants.
Import PyStr Conversation.

(** The words held by the loop variables. *)
Definition words_held (st : loop_state) : list string :=
  concat (map (fun t => split_ws (text t)) (conversation st))
  ++ split_ws (current_text st).

(** The non-blank characters held by the loop variables. *)
Definition glyphs_held (st : loop_state) : string :=
  join "" (map (fun t => remove_ws (text t)) (conversation st))
  +:+ remove_ws (current_text st).

(** [current_text] is empty before the first segment and ends in a blank
    afterwards. *)
Definition buffer_ok (st : loop_state) : Prop :=
  match current_speaker st with
  | None => current_text st = ""
  | Some _ => exists t, current_text st = t +:+ " "
  end.

(** No turn is followed by a turn of the same speaker. *)
Definition alternating (turns : list Turn) : Prop :=
  forall i t1 t2,
    turns !! i = Some t1 -> turns !! S i = Some t2 -> speaker t1 <> speaker t2.

(** The speaker being accumulated differs from the last emitted one. *)
Definition speakers_ok (st : loop_state) : Prop :=
  alternating (conversation st)
  /\ match current_speaker st with
     | None => conversation st = []
     | Some cs => forall t, last (conversation st) = Some t -> speaker t <> cs
     end.

End Invariants.

(** ** Reading traces *)

Module Observe.

Global Instance model_eq_dec : EqDecision model.
Proof. solve_decision. Defined.

(** The model instances bound after one more event. *)
Definition resident_step (held : list model) (e : event) : list model :=
  match e with
  | EvBind m => held ++ [m]
  | EvDel m => filter (fun m' => m' <> m) held
  | _ => held
  end.

(** The model instances bound after a run of events, oldest first. *)
Definition resident_from (held : list model) (tr : list event) : list model :=
  foldl resident_step held tr.

Definition resident (tr : list event) : list model := resident_from [] tr.

(** Events that neither bind nor release a model, invoke no stage and
    carry no diarization bounds. *)
Definition quiet (e : event) : Prop :=
  match e with
  | EvBind _ | EvDel _ | EvCall _ | EvDiarizeBounds _ _ => False
  | _ => True
  end.

(** The sidecar locations whose existence was tested, in order. *)
Definition probed (tr : list event) : list Path :=
  omap (fun e => match e with EvExists location => Some location | _ => None end) tr.

(** How [load_metadata] treats what it finds at one location. *)
Inductive verdict :=
| Hit (v : json)      (* returned *)
| Miss                (* the loop moves on *)
| Abort (e : exn).    (* an exception leaves the loop *)

Definition examine (st : file_state) : verdict :=
  match st with
  | Missing => Miss
  | Unreadable => Abort OSError
  | Garbled => Abort JSONDecodeError
  | Parsed v =>
      match Py.contains "speaker_count" v with
      | Ok true =>
          match Py.getitem v "speaker_count" with
          | Ok _ => Hit v
          | Raise e => Abort e
          end
      | Ok false => Miss
      | Raise e => Abort e
      end
  end.

(** A valid metadata record: a JSON object with a [speaker_count] key. *)
Definition valid_record (st : file_state) : bool :=
  match st with
  | Parsed (JObj items) => Py.has_key "speaker_count" items
  | _ => false
  end.

(** Whether the recording, processed on its own, counts as a success. *)
Definition recording_succeeds (w : World) (wav_path : Path) : bool :=
  let output_dir := PathLib.child output_base_dir
                      (Naming.dir_name (PathLib.stem wav_path)) in
  match mkdir w output_dir with
  | Ok _ =>
      match outcome (process_audio_file w wav_path output_dir) with
      | Ok true => true
      | _ => false
      end
  | Raise _ => false
  end.

(** What testing and reading one location leaves in the trace. *)
Definition visit_trace (st : file_state) (location : Path) : list event :=
  if file_exists st then [EvExists location; EvOpen location]
  else [EvExists location].

(** The residency bound the code keeps: at most two model instances, and
    the diarizer only on its own. *)
Definition held_ok (held : list model) : Prop :=
  length held <= 2 /\ (DIARIZER ∈ held -> held = [DIARIZER]).

(** What is resident when a stage is invoked or the diarizer is built. *)
Definition event_ok (held : list model) (e : event) : Prop :=
  match e with
  | EvCall Transcribe => held = [ASR]
  | EvCall Align => held = [ASR; ALIGNER]
  | EvBind DIARIZER => held = []
  | EvCall Diarize => held = [DIARIZER]
  | _ => True
  end.

(** A trace that keeps [held_ok] and [event_ok] at each of its points,
    started with [held] resident. *)
Fixpoint disciplined (held : list model) (tr : list event) : Prop :=
  match tr with
  | [] => held_ok held
  | e :: tr' =>
      held_ok held /\ event_ok held e /\ disciplined (resident_step held e) tr'
  end.

(** What [process_audio_file] does between the return of the Align stage
    and the creation of the diarization model: [del model], [del model_a],
    [gc.collect()], [torch.cuda.empty_cache()]. *)
Definition release : list event :=
  [EvCall Align; EvDel ASR; EvDel ALIGNER; EvGcCollect; EvEmptyCache].

(** Every creation of the diarization model in [tr] comes right after the
    events of [release]; [seen] is what happened before [tr]. *)
Fixpoint heralded (seen tr : list event) : Prop :=
  match tr with
  | [] => True
  | e :: tr' =>
      (e = EvBind DIARIZER -> release `suffix_of` seen)
      /\ heralded (seen ++ [e]) tr'
  end.

(** Speaker bounds handed to the diarizer are both [speaker_count]. *)
Definition bounds_are (speaker_count : json) (e : event) : Prop :=
  match e with
  | EvDiarizeBounds min_speakers max_speakers =>
      min_speakers = speaker_count /\ max_speakers = speaker_count
  | _ => True
  end.

End Observe.

(** ** Concrete environments used by the examples *)

Module Fixtures.

Definition no_sidecar : Path -> file_state := fun _ => Missing.

(** Every collaborator succeeds; alignment metadata as the aligner
    reports it. *)
Definition happy (files : Path -> file_state) : World := {|
  fs := files;
  mkdir := fun _ => Ok tt;
  open_write := fun _ => Ok tt;
  load_audio := fun _ => Ok [];
  load_model := fun _ => Ok tt;
  transcribe := fun _ => Ok Scenario.segments;
  load_align_model := fun _ => Ok (JObj [("language", JStr "en")]);
  align := fun segments _ _ => Ok segments;
  DiarizationPipeline := fun _ => Ok tt;
  diarize := fun _ _ _ => Ok [];
  assign_word_speakers := fun _ segments => Ok segments |}.

Definition recording : Path := ["data"; "rec.wav"].
Definition parent_sidecar : Path := ["data"; "rec_metadata.json"].
Definition root_sidecar : Path := ["workspace"; "audio"; "rec_metadata.json"].
Definition output_dir : Path := ["workspace"; "audio"; "audio-only"; "rec"].

Definition three_speakers : json :=
  JObj [("speaker_count", JInt 3); ("title", JStr "Weekly")].
Definition four_speakers : json :=
  JObj [("speaker_count", JInt 4)].

(** Valid records next to the recording and at the workspace root. *)
Definition both_sidecars : Path -> file_state := fun p =>
  if decide (p = parent_sidecar) then Parsed three_speakers
  else if decide (p = root_sidecar) then Parsed four_speakers
  else Missing.

(** A sidecar next to the recording that is not JSON, a valid one at the
    workspace root. *)
Definition garbled_then_valid : Path -> file_state := fun p =>
  if decide (p = parent_sidecar) then Garbled
  else if decide (p = root_sidecar) then Parsed four_speakers
  else Missing.

(** A batch of three recordings; alignment raises for the second one. *)
Definition first : Path := ["workspace"; "audio"; "a.wav"].
Definition second : Path := ["workspace"; "audio"; "b.wav"].
Definition third : Path := ["workspace"; "audio"; "c.wav"].

Definition second_fails_at_align : World := {|
  fs := no_sidecar;
  mkdir := fun _ => Ok tt;
  open_write := fun _ => Ok tt;
  load_audio := fun p => Ok [Z.of_nat (String.length (PathLib.name p))];
  load_model := fun _ => Ok tt;
  transcribe := fun audio => Ok (map (fun z => mkSegment (Scenario.q 0) (Scenario.q z) "x" None) audio);
  load_align_model := fun p =>
    if decide (p = second) then Ok JNull else Ok (JObj [("language", JStr "en")]);
  align := fun segments metadata _ =>
    if Py.truthy metadata then Ok segments else Raise RuntimeError;
  DiarizationPipeline := fun _ => Ok tt;
  diarize := fun _ _ _ => Ok [];
  assign_word_speakers := fun _ segments => Ok segments |}.

End Fixtures.

(** ** Further code of the same files *)

(** *** [save_transcript] and what [save_results] hands to the writers *)

Module Artifacts.

(** The loop of [save_transcript]: a present ['speaker'] is overwritten in
    place with its mapped name.  The list returned is the list of segment
    objects after the loop, which is also what the later writers see. *)
Definition save_transcript (segments : list Segment)
    (speaker_mapping : gmap string string) : list Segment :=
  map (fun segment =>
         match seg_speaker segment with
         | Some speaker =>
             mkSegment (seg_start segment) (seg_end segment) (seg_text segment)
               (Some (default speaker (speaker_mapping !! speaker)))
         | None => segment
         end) segments.

(** The three artifacts of [save_results], in the order they are written:
    [save_conversation] and [save_text_format] read the segments that
    [save_transcript] has already relabelled. *)
Record artifacts := mkArtifacts {
  transcript : list Segment;
  conversation_turns : list Turn;
  text_file : string
}.

Definition save_results_content (segments : list Segment)
    (speaker_mapping : gmap string string) : artifacts :=
  let relabelled := save_transcript segments speaker_mapping in
  mkArtifacts relabelled
    (Conversation.save_conversation relabelled speaker_mapping)
    (Conversation.save_text_format relabelled speaker_mapping).

(** A mapping none of whose names is itself a label. *)
Definition names_are_not_labels (speaker_mapping : gmap string string) : Prop :=
  forall label name,
    speaker_mapping !! label = Some name -> speaker_mapping !! name = None.

(** [xs] with every run of equal neighbours cut down to its first element. *)
Fixpoint squeeze (xs : list string) : list string :=
  match xs with
  | [] => []
  | x :: rest =>
      match rest with
      | y :: _ => if decide (x = y) then squeeze rest else x :: squeeze rest
      | [] => [x]
      end
  end.

End Artifacts.

(** *** The earlier [load_metadata] of [v4process_audio.py] *)

Section Version4.
Context (w : World).

(** The first half of the [try] body: the sidecar next to the recording,
    or, when that one is missing and the directory [output_base_dir / stem]
    exists, the sidecar inside that directory. *)
Definition choose_sidecar_v4 (wav_file : Path) : M Path :=
  let sidecar := PathLib.stem wav_file +:+ "_metadata.json" in
  let beside := PathLib.child (PathLib.parent wav_file) sidecar in
  let output_dir := PathLib.child output_base_dir (PathLib.stem wav_file) in
  emit (EvExists beside);;
  if file_exists (fs w beside) then mret beside
  else
    emit (EvExists output_dir);;
    mret (if file_exists (fs w output_dir)
          then PathLib.child output_dir sidecar else beside).

(** The second half: [if metadata_file.exists(): ...] and the two
    statements after it. *)
Definition read_sidecar_v4 (wav_file metadata_file : Path) : M json :=
  emit (EvExists metadata_file);;
  if file_exists (fs w metadata_file) then
    emit (EvOpen metadata_file);;
    metadata ← lift (read_json (fs w metadata_file));
    found ← lift (Py.contains "speaker_count" metadata);
    if found : bool then
      _ ← lift (Py.getitem metadata "speaker_count");
      mret metadata
    else
      emit (EvLogWarning wav_file);; mret JNull
  else
    emit (EvLogWarning wav_file);; mret JNull.

Definition load_metadata_v4_body (wav_file : Path) : M json :=
  metadata_file ← choose_sidecar_v4 wav_file;
  read_sidecar_v4 wav_file metadata_file.

(** The one file this version reads, if it reads any. *)
Definition chosen_sidecar_v4 (wav_file : Path) : Path :=
  let sidecar := PathLib.stem wav_file +:+ "_metadata.json" in
  let beside := PathLib.child (PathLib.parent wav_file) sidecar in
  let output_dir := PathLib.child output_base_dir (PathLib.stem wav_file) in
  if file_exists (fs w beside) then beside
  else if file_exists (fs w output_dir)
       then PathLib.child output_dir sidecar else beside.

Definition load_metadata_v4 (wav_file : Path) : M json :=
  try_except (load_metadata_v4_body wav_file)
    (fun e => emit (EvLogError wav_file);; mret JNull).

End Version4.

(** *** [directory_transcribe.py] *)

Module Transcribe.

(** What [int(input(...))] makes of one line typed by the operator. *)
Inductive reply :=
| NotANumber            (* [int] raises [ValueError] *)
| Number (count : Z).

(** [get_speaker_count]: the [while True] loop over the operator's replies.
    [None] when the replies run out before one is accepted (the call has not
    returned); otherwise the accepted count and the replies not yet read. *)
Fixpoint get_speaker_count (replies : list reply) : option (Z * list reply) :=
  match replies with
  | [] => None
  | NotANumber :: rest => get_speaker_count rest
  | Number count :: rest =>
      if ((1 <=? count) && (count <=? 10))%Z then Some (count, rest)
      else get_speaker_count rest
  end.

(** A reply the loop does not accept. *)
Definition rejected (r : reply) : Prop :=
  match r with
  | NotANumber => True
  | Number count => (count < 1 \/ 10 < count)%Z
  end.

(** The counts among the replies that the loop accepts, in order. *)
Fixpoint accepted (replies : list reply) : list Z :=
  match replies with
  | [] => []
  | NotANumber :: rest => accepted rest
  | Number count :: rest =>
      if ((1 <=? count) && (count <=? 10))%Z then count :: accepted rest
      else accepted rest
  end.

(** [save_conversation] of this file: no speaker mapping. *)
Definition loop_body (st : Conversation.loop_state) (segment : Segment)
    : Conversation.loop_state :=
  let speaker := default "Unknown" (seg_speaker segment) in
  let text := PyStr.strip (seg_text segment) in
  if decide (Some speaker ≠ Conversation.current_speaker st) then
    let conversation' :=
      match Conversation.current_speaker st with
      | Some cs =>
          Conversation.conversation st
          ++ [mkTurn cs (PyStr.strip (Conversation.current_text st))]
      | None => Conversation.conversation st
      end in
    Conversation.mkLoop conversation' (Some speaker) (text +:+ " ")
  else
    Conversation.mkLoop (Conversation.conversation st)
      (Conversation.current_speaker st)
      (Conversation.current_text st +:+ text +:+ " ").

Definition save_conversation (segments : list Segment) : list Turn :=
  Conversation.loop_finish (foldl loop_body Conversation.loop_init segments).

(** [path.with_suffix(suffix)] for a path with a name: the last suffix of
    the name, if it has one, is replaced. *)
Definition with_suffix (p : Path) (suffix : string) : Path :=
  PathLib.child (PathLib.parent p) (PathLib.stem p +:+ suffix).

(** [base_path.with_suffix('.json')] where
    [base_path = audio_path.with_suffix('')]. *)
Definition transcript_json_path (audio_path : Path) : Path :=
  with_suffix (with_suffix audio_path "") ".json".

(** [Path(str(base_path) + '_conversation.json')] *)
Definition conversation_json_path (audio_path : Path) : Path :=
  let base_path := with_suffix audio_path "" in
  PathLib.child (PathLib.parent base_path)
    (PathLib.name base_path +:+ "_conversation.json").

(** The log opened in append mode by the [except] clause; it is named
    relative to the working directory. *)
Definition errors_log : Path := ["transcription_errors.log"].

Section Pipeline.
Context (w : World).

(** The body of the [try] in [process_audio_file]. *)
Definition run_stages (audio_path : Path) (num_speakers : json) : M unit :=
  emit (EvCall Load);;
  audio ← lift (load_audio w audio_path);
  lift (load_model w audio_path);;
  emit (EvBind ASR);;
  emit (EvCall Transcribe);;
  result ← lift (transcribe w audio);
  metadata ← lift (load_align_model w audio_path);
  emit (EvBind ALIGNER);;
  emit (EvCall Align);;
  result ← lift (align w result metadata audio);
  emit (EvDel ASR);;
  emit (EvDel ALIGNER);;
  emit EvGcCollect;;
  emit EvEmptyCache;;
  lift (DiarizationPipeline w audio_path);;
  emit (EvBind DIARIZER);;
  emit (EvCall Diarize);;
  emit (EvDiarizeBounds num_speakers num_speakers);;
  diarize_segments ← lift (diarize w audio num_speakers num_speakers);
  emit (EvCall Label);;
  result ← lift (assign_word_speakers w diarize_segments result);
  emit (EvWrite (transcript_json_path audio_path));;
  lift (open_write w (transcript_json_path audio_path));;
  emit (EvWrite (conversation_json_path audio_path));;
  lift (open_write w (conversation_json_path audio_path)).

(** [process_audio_file]: the handler prints the error and appends it to
    [transcription_errors.log]; opening that log is not protected. *)
Definition process_audio_file (audio_path : Path) (num_speakers : json) : M unit :=
  try_except (run_stages audio_path num_speakers)
    (fun e => emit (EvWrite errors_log);; lift (open_write w errors_log)).

(** The loop of [main]: ask for the speaker count, then process. *)
Fixpoint process_each (wav_files : list Path) (replies : list reply)
    : M (option (list reply)) :=
  match wav_files with
  | [] => mret (Some replies)
  | wav_path :: rest =>
      match get_speaker_count replies with
      | None => mret None
      | Some (num_speakers, replies') =>
          process_audio_file wav_path (JInt num_speakers);;
          process_each rest replies'
      end
  end.

End Pipeline.

End Transcribe.

(** *** [directory_transcriber.py], the older script *)

Module Legacy.

(** [audio_path.with_suffix('.txt')] *)
Definition transcript_path (audio_path : Path) : Path :=
  Transcribe.with_suffix audio_path ".txt".

Section Pipeline.
Context (w : World).

(** The body of the [try] in [process_audio_file]; the header, and a line
    per segment, go to the one file it opens. *)
Definition run_stages (audio_path : Path) (num_speakers : json) : M unit :=
  emit (EvCall Load);;
  audio ← lift (load_audio w audio_path);
  lift (load_model w audio_path);;
  emit (EvBind ASR);;
  emit (EvCall Transcribe);;
  result ← lift (transcribe w audio);
  metadata ← lift (load_align_model w audio_path);
  emit (EvBind ALIGNER);;
  emit (EvCall Align);;
  result ← lift (align w result metadata audio);
  emit (EvDel ASR);;
  emit (EvDel ALIGNER);;
  emit EvGcCollect;;
  emit EvEmptyCache;;
  lift (DiarizationPipeline w audio_path);;
  emit (EvBind DIARIZER);;
  emit (EvCall Diarize);;
  emit (EvDiarizeBounds num_speakers num_speakers);;
  diarize_segments ← lift (diarize w audio num_speakers num_speakers);
  emit (EvCall Label);;
  result ← lift (assign_word_speakers w diarize_segments result);
  emit (EvWrite (transcript_path audio_path));;
  lift (open_write w (transcript_path audio_path)).

(** [process_audio_file]: the handler only prints. *)
Definition process_audio_file (audio_path : Path) (num_speakers : json) : M unit :=
  try_except (run_stages audio_path num_speakers) (fun e => mret tt).

(** The loop of [main]; [get_speaker_count] is the same function in both
    scripts. *)
Fixpoint process_each (wav_files : list Path) (replies : list Transcribe.reply)
    : M (option (list Transcribe.reply)) :=
  match wav_files with
  | [] => mret (Some replies)
  | wav_path :: rest =>
      match Transcribe.get_speaker_count replies with
      | None => mret None
      | Some (num_speakers, replies') =>
          process_audio_file wav_path (JInt num_speakers);;
          process_each rest replies'
      end
  end.

End Pipeline.

End Legacy.

(** *** Shapes of traces *)

Module Shape.

(** The events of the [try] body of [process_audio_file] up to the point
    where results are saved. *)
Definition stage_script (speaker_count : json) : list event :=
  [ EvCall Load; EvBind ASR; EvCall Transcribe; EvBind ALIGNER; EvCall Align;
    EvDel ASR; EvDel ALIGNER; EvGcCollect; EvEmptyCache;
    EvBind DIARIZER; EvCall Diarize;
    EvDiarizeBounds speaker_count speaker_count; EvCall Label ].

(** The three files [save_results] opens, in order. *)
Definition artifact_writes (audio_path output_dir : Path) : list event :=
  let base_name := PathLib.stem audio_path in
  [ EvWrite (PathLib.child output_dir (base_name +:+ ".json"));
    EvWrite (PathLib.child output_dir (base_name +:+ "_conversation.json"));
    EvWrite (PathLib.child output_dir (base_name +:+ ".txt")) ].

(** The two files [directory_transcribe.process_audio_file] opens. *)
Definition json_writes (audio_path : Path) : list event :=
  [ EvWrite (Transcribe.transcript_json_path audio_path);
    EvWrite (Transcribe.conversation_json_path audio_path) ].

(** A run that goes through [script] and then [writes], in order, and
    either reaches the end of both and returns a value satisfying [good], or
    raises somewhere on the way; nothing of [writes] happens before the end
    of [script]. *)
Definition unfolds {A} (script writes : list event) (m : M A)
    (good : A -> Prop) : Prop :=
  exists k j,
    k <= length script /\ j <= length writes
    /\ (j = 0 \/ k = length script)
    /\ trace m = take k script ++ take j writes
    /\ ((exists a, outcome m = Ok a /\ good a
                   /\ k = length script /\ j = length writes)
        \/ exists e, outcome m = Raise e).

(** The stages invoked, in order. *)
Definition calls (tr : list event) : list stage :=
  omap (fun e => match e with EvCall s => Some s | _ => None end) tr.

(** The files opened for writing, in order. *)
Definition written (tr : list event) : list Path :=
  omap (fun e => match e with EvWrite f => Some f | _ => None end) tr.

(** How often the Load stage was invoked. *)
Definition loads (tr : list event) : nat :=
  length (omap (fun e => match e with EvCall Load => Some tt | _ => None end) tr).

(** The events of metadata lookup and speaker-count resolution. *)
Definition lookup_event (e : event) : Prop :=
  match e with
  | EvExists _ | EvOpen _ | EvLogWarning _ | EvLogError _ | EvDefaulted => True
  | _ => False
  end.

(** Events other than the opening of a file for reading. *)
Definition not_open (e : event) : Prop :=
  match e with EvOpen _ => False | _ => True end.

(** Whether [c] occurs in [s]. *)
Fixpoint has_char (c : ascii) (s : string) : bool :=
  match s with
  | "" => false
  | String a s' => bool_decide (a = c) || has_char c s'
  end.


End Shape.

(** *** Further worlds *)

Module Cases.

(** A valid record whose second attendee has no ['name']. *)
Definition nameless_attendee : json :=
  JObj [("speaker_count", JInt 2);
        ("attendees", JArr [JObj [("name", JStr "Ana")];
                            JObj [("email", JStr "b@example.org")]])].

Definition with_nameless_attendee : Path -> file_state := fun p =>
  if decide (p = Fixtures.parent_sidecar) then Parsed nameless_attendee
  else Missing.

(** No sidecar next to the recording, a valid one at the workspace root and
    another in the output directory. *)
Definition root_and_output : Path -> file_state := fun p =>
  if decide (p = Fixtures.root_sidecar) then Parsed Fixtures.four_speakers
  else if decide (p = Fixtures.output_dir ++ ["rec_metadata.json"])
       then Parsed Fixtures.three_speakers
  else Missing.

(** A record whose [speaker_count] is not a number. *)
Definition worded_count : json := JObj [("speaker_count", JStr "three")].

Definition with_worded_count : Path -> file_state := fun p =>
  if decide (p = Fixtures.parent_sidecar) then Parsed worded_count
  else Missing.

(** Alignment fails for every recording; nothing else does. *)
Definition align_fails : World := {|
  fs := Fixtures.no_sidecar;
  mkdir := fun _ => Ok tt;
  open_write := fun _ => Ok tt;
  load_audio := fun _ => Ok [];
  load_model := fun _ => Ok tt;
  transcribe := fun _ => Ok Scenario.segments;
  load_align_model := fun _ => Ok JNull;
  align := fun _ _ _ => Raise RuntimeError;
  DiarizationPipeline := fun _ => Ok tt;
  diarize := fun _ _ _ => Ok [];
  assign_word_speakers := fun _ segments => Ok segments |}.

(** Alignment fails and no file can be opened for writing. *)
Definition align_fails_read_only : World := {|
  fs := Fixtures.no_sidecar;
  mkdir := fun _ => Ok tt;
  open_write := fun _ => Raise OSError;
  load_audio := fun _ => Ok [];
  load_model := fun _ => Ok tt;
  transcribe := fun _ => Ok Scenario.segments;
  load_align_model := fun _ => Ok JNull;
  align := fun _ _ _ => Raise RuntimeError;
  DiarizationPipeline := fun _ => Ok tt;
  diarize := fun _ _ _ => Ok [];
  assign_word_speakers := fun _ segments => Ok segments |}.

(** The output directory cannot be created. *)
Definition no_directories : World := {|
  fs := Fixtures.no_sidecar;
  mkdir := fun _ => Raise OSError;
  open_write := fun _ => Ok tt;
  load_audio := fun _ => Ok [];
  load_model := fun _ => Ok tt;
  transcribe := fun _ => Ok Scenario.segments;
  load_align_model := fun _ => Ok (JObj [("language", JStr "en")]);
  align := fun segments _ _ => Ok segments;
  DiarizationPipeline := fun _ => Ok tt;
  diarize := fun _ _ _ => Ok [];
  assign_word_speakers := fun _ segments => Ok segments |}.

End Cases.

(** ** Facts about the string primitives *)

Section StringFacts.
Import PyStr.
Local Arguments String.append !_ _ / : simpl nomatch.

Lemma append_nil_r (s : string) : s +:+ "" = s.
Proof. induction s as [|c s IH]; simpl; [done | by rewrite IH]. Qed.

Lemma append_assoc (a b c : string) : (a +:+ b) +:+ c = a +:+ (b +:+ c).
Proof. induction a as [|x a IH]; simpl; [done | by rewrite IH]. Qed.

Lemma is_space_blank : is_space " " = true.
Proof. reflexivity. Qed.

(** Reading [a], one whitespace character, then [b], ends the word in
    progress at the separator. *)
Lemma split_go_sep cur a c b :
  is_space c = true ->
  split_go cur (a +:+ String c b) = split_go cur a ++ split_go "" b.
Proof.
  intros Hc. revert cur.
  induction a as [|x a IH]; intros cur; simpl.
  - by rewrite Hc.
  - destruct (is_space x); [|by apply IH].
    by rewrite IH, (assoc_L (++)).
Qed.

Lemma split_go_lstrip s : split_go "" (lstrip s) = split_go "" s.
Proof.
  induction s as [|c s IH]; [done|]. simpl.
  destruct (is_space c) eqn:Hc; simpl; [done | by rewrite Hc].
Qed.

Lemma split_go_rstrip cur s : split_go cur (rstrip s) = split_go cur s.
Proof.
  revert cur. induction s as [|c s IH]; intros cur; [done|]. simpl.
  destruct (rstrip s) as [|r0 r] eqn:Hr.
  - destruct (is_space c) eqn:Hc; simpl; rewrite ?Hc, <- IH; simpl.
    + by rewrite (right_id_L [] (++)).
    + done.
  - simpl. destruct (is_space c); by rewrite <- IH.
Qed.

Lemma split_ws_empty : split_ws "" = [].
Proof. reflexivity. Qed.

Lemma split_ws_strip s : split_ws (strip s) = split_ws s.
Proof. unfold split_ws, strip. by rewrite split_go_rstrip, split_go_lstrip. Qed.

Lemma split_ws_sep a b : split_ws (a +:+ " " +:+ b) = split_ws a ++ split_ws b.
Proof. apply split_go_sep, is_space_blank. Qed.

Lemma split_ws_trailing a : split_ws (a +:+ " ") = split_ws a.
Proof.
  unfold split_ws. rewrite split_go_sep by apply is_space_blank.
  apply (right_id_L [] (++)).
Qed.

Lemma split_ws_join parts :
  split_ws (join " " parts) = concat (map split_ws parts).
Proof.
  induction parts as [|p [|p' parts] IH]; [done| |].
  - simpl. by rewrite (right_id_L [] (++)).
  - change (join " " (p :: p' :: parts))
      with (p +:+ " " +:+ join " " (p' :: parts)).
    by rewrite split_ws_sep, IH.
Qed.

Lemma remove_ws_app a b : remove_ws (a +:+ b) = remove_ws a +:+ remove_ws b.
Proof.
  induction a as [|c a IH]; [done|]. simpl.
  destruct (is_space c); simpl; by rewrite IH.
Qed.

Lemma remove_ws_lstrip s : remove_ws (lstrip s) = remove_ws s.
Proof.
  induction s as [|c s IH]; [done|]. simpl.
  destruct (is_space c) eqn:Hc; simpl; [done | by rewrite Hc].
Qed.

Lemma remove_ws_rstrip s : remove_ws (rstrip s) = remove_ws s.
Proof.
  induction s as [|c s IH]; [done|]. simpl.
  destruct (rstrip s) as [|r0 r] eqn:Hr.
  - destruct (is_space c) eqn:Hc; simpl; rewrite ?Hc, <- IH; done.
  - simpl. destruct (is_space c); by rewrite <- IH.
Qed.

Lemma remove_ws_strip s : remove_ws (strip s) = remove_ws s.
Proof. unfold strip. by rewrite remove_ws_rstrip, remove_ws_lstrip. Qed.

Lemma join_empty_app l k : join "" (l ++ k) = join "" l +:+ join "" k.
Proof.
  induction l as [|x [|y l] IH].
  - done.
  - simpl. destruct k; simpl; by rewrite ?append_nil_r.
  - change (join "" ((x :: y :: l) ++ k))
      with (x +:+ "" +:+ join "" ((y :: l) ++ k)).
    change (join "" (x :: y :: l)) with (x +:+ "" +:+ join "" (y :: l)).
    rewrite IH. simpl. by rewrite append_assoc.
Qed.

Lemma remove_ws_join parts :
  remove_ws (join "" parts) = join "" (map remove_ws parts).
Proof.
  induction parts as [|p parts IH]; [done|].
  change (p :: parts) with ([p] ++ parts).
  rewrite map_app, !join_empty_app, remove_ws_app, IH. done.
Qed.

End StringFacts.

(** ** Turn coalescing *)

Section CoalesceFacts.
Import PyStr Conversation Invariants.
Context (speaker_mapping : gmap string string).

Lemma alternating_nil : alternating [].
Proof. intros i t1 t2 H. by rewrite lookup_nil in H. Qed.

Lemma alternating_snoc turns t :
  alternating turns ->
  (forall t', last turns = Some t' -> speaker t' <> speaker t) ->
  alternating (turns ++ [t]).
Proof.
  intros Halt Hlast i t1 t2 H1 H2.
  apply lookup_snoc_Some in H2 as [[Hlt H2]|[Hlen ->]].
  - rewrite lookup_app_l in H1 by lia. by eapply Halt.
  - rewrite lookup_app_l in H1 by lia.
    apply Hlast. rewrite last_lookup, <- Hlen. done.
Qed.

Lemma concat_words_snoc turns t :
  concat (map (fun t => split_ws (text t)) (turns ++ [t]))
  = concat (map (fun t => split_ws (text t)) turns) ++ split_ws (text t).
Proof. rewrite map_app, concat_app. simpl. by rewrite (right_id_L [] (++)). Qed.

Lemma join_glyphs_snoc turns t :
  join "" (map (fun t => remove_ws (text t)) (turns ++ [t]))
  = join "" (map (fun t => remove_ws (text t)) turns) +:+ remove_ws (text t).
Proof. rewrite map_app, join_empty_app. done. Qed.

Lemma loop_init_ok :
  buffer_ok loop_init /\ speakers_ok loop_init.
Proof. repeat split. apply alternating_nil. Qed.

(** One iteration keeps the buffer shape and the alternation, and adds
    exactly the words (and glyphs) of the segment it reads. *)
Lemma loop_body_step st segment :
  buffer_ok st -> speakers_ok st ->
  let st' := loop_body speaker_mapping st segment in
  buffer_ok st' /\ speakers_ok st'
  /\ words_held st' = words_held st ++ split_ws (seg_text segment)
  /\ glyphs_held st' = glyphs_held st +:+ remove_ws (seg_text segment).
Proof.
  intros Hbuf [Halt Hcur]. unfold loop_body, buffer_ok, speakers_ok,
    words_held, glyphs_held in *.
  destruct st as [conv cs ct]; simpl in *.
  case_decide as Hne; simpl.
  - destruct cs as [cs|]; simpl.
    + split; [by eexists|]. split; [split|split].
      * apply alternating_snoc; [done|]. simpl. done.
      * intros t. rewrite last_snoc. intros [= <-]. simpl. congruence.
      * rewrite concat_words_snoc. simpl.
        by rewrite !split_ws_strip, split_ws_trailing, split_ws_strip.
      * rewrite join_glyphs_snoc. simpl.
        rewrite !remove_ws_strip, remove_ws_app, remove_ws_strip.
        simpl. by rewrite append_nil_r, append_assoc.
    + subst ct conv. split; [by eexists|]. split; [split|split].
      * apply alternating_nil.
      * by intros t [=].
      * simpl. by rewrite split_ws_trailing, split_ws_strip.
      * simpl. rewrite remove_ws_app, remove_ws_strip. simpl.
        by rewrite append_nil_r.
  - subst cs. destruct Hbuf as [t ->].
    split; [|split; [done|split]].
    + eexists (t +:+ " " +:+ strip (seg_text segment)).
      by rewrite !append_assoc.
    + rewrite append_assoc, split_ws_sep, !split_ws_trailing, split_ws_strip.
      by rewrite (assoc_L (++)).
    + rewrite !remove_ws_app, remove_ws_strip. simpl.
      by rewrite !append_nil_r, append_assoc.
Qed.

Lemma loop_invariant segments :
  let st := foldl (loop_body speaker_mapping) loop_init segments in
  buffer_ok st /\ speakers_ok st
  /\ words_held st = concat (map (fun s => split_ws (seg_text s)) segments)
  /\ glyphs_held st = join "" (map (fun s => remove_ws (seg_text s)) segments).
Proof.
  induction segments as [|segment segments IH] using rev_ind.
  - simpl. repeat split. apply alternating_nil.
  - rewrite foldl_snoc. destruct IH as (Hbuf & Hsp & Hw & Hg).
    destruct (loop_body_step _ segment Hbuf Hsp) as (Hbuf' & Hsp' & Hw' & Hg').
    repeat split; try done; try apply Hsp'.
    + rewrite Hw', Hw, map_app, concat_app. simpl.
      by rewrite (right_id_L [] (++)).
    + rewrite Hg', Hg, map_app, join_empty_app. done.
Qed.

(** The closing statement publishes everything still held. *)
Lemma loop_finish_words st :
  buffer_ok st ->
  concat (map (fun t => split_ws (text t)) (loop_finish st)) = words_held st
  /\ join "" (map (fun t => remove_ws (text t)) (loop_finish st)) = glyphs_held st.
Proof.
  unfold buffer_ok, loop_finish, words_held, glyphs_held.
  destruct st as [conv [cs|] ct]; simpl.
  - intros _. case_decide as Hct.
    + rewrite concat_words_snoc, join_glyphs_snoc. simpl.
      by rewrite split_ws_strip, remove_ws_strip.
    + subst ct. simpl.
      by rewrite split_ws_empty, (right_id_L [] (++)), append_nil_r.
  - intros ->. simpl.
    by rewrite split_ws_empty, (right_id_L [] (++)), append_nil_r.
Qed.

Lemma loop_finish_alternating st :
  speakers_ok st -> alternating (loop_finish st).
Proof.
  unfold speakers_ok, loop_finish.
  destruct st as [conv [cs|] ct]; simpl; intros [Halt Hcur]; [|done].
  case_decide; [|done]. by apply alternating_snoc.
Qed.

End CoalesceFacts.

(** *** The two laws of coalescing *)

Section CoalesceLaws.
Import PyStr Conversation Invariants.
Context (speaker_mapping : gmap string string).

Local Arguments String.append !_ _ / : simpl nomatch.

Lemma rstrip_trailing a : rstrip (a +:+ " ") = rstrip a.
Proof. induction a as [|c a IH]; [done|]. simpl. by rewrite IH. Qed.

Lemma lstrip_trailing a :
  lstrip (a +:+ " ") = lstrip a +:+ " "
  \/ (lstrip (a +:+ " ") = "" /\ lstrip a = "").
Proof.
  induction a as [|c a IH]; [by right|]. simpl.
  destruct (is_space c); [done | by left].
Qed.

Lemma strip_trailing a : strip (a +:+ " ") = strip a.
Proof.
  unfold strip. destruct (lstrip_trailing a) as [->|[-> ->]]; [|done].
  apply rstrip_trailing.
Qed.

Lemma join_trailing x parts :
  join "" (map (fun p => p +:+ " ") (x :: parts)) = join " " (x :: parts) +:+ " ".
Proof.
  revert x. induction parts as [|y parts IH]; intros x; [done|].
  change (map (fun p => p +:+ " ") (x :: y :: parts))
    with ([x +:+ " "] ++ map (fun p => p +:+ " ") (y :: parts)).
  rewrite join_empty_app, IH.
  change (join " " (x :: y :: parts)) with (x +:+ " " +:+ join " " (y :: parts)).
  change (join "" [x +:+ " "]) with (x +:+ " ").
  by rewrite !append_assoc.
Qed.

Lemma append_blank_nonempty a : a +:+ " " <> "".
Proof. by destruct a. Qed.

Lemma join_empty_cons x parts : join "" (x :: parts) = x +:+ join "" parts.
Proof. apply (join_empty_app [x] parts). Qed.

Lemma loop_body_same conv s ct seg :
  mapped_speaker speaker_mapping seg = s ->
  loop_body speaker_mapping (mkLoop conv (Some s) ct) seg
  = mkLoop conv (Some s) (ct +:+ strip (seg_text seg) +:+ " ").
Proof.
  intros Hseg. unfold loop_body. simpl.
  by rewrite decide_False by (rewrite Hseg; auto).
Qed.

Lemma loop_body_change conv s ct seg :
  mapped_speaker speaker_mapping seg <> s ->
  loop_body speaker_mapping (mkLoop conv (Some s) ct) seg
  = mkLoop (conv ++ [mkTurn s (strip ct)])
      (Some (mapped_speaker speaker_mapping seg)) (strip (seg_text seg) +:+ " ").
Proof.
  intros Hseg. unfold loop_body. simpl.
  by rewrite decide_True by congruence.
Qed.

(** Segments of the speaker being accumulated only extend the buffer. *)
Lemma loop_same_speaker segments conv s ct :
  Forall (fun seg => mapped_speaker speaker_mapping seg = s) segments ->
  foldl (loop_body speaker_mapping) (mkLoop conv (Some s) ct) segments
  = mkLoop conv (Some s)
      (ct +:+ join "" (map (fun seg => strip (seg_text seg) +:+ " ") segments)).
Proof.
  intros Hall. revert ct.
  induction Hall as [|seg rest Hseg _ IH]; intros ct.
  - simpl. by rewrite append_nil_r.
  - simpl foldl. rewrite (loop_body_same _ _ _ _ Hseg), IH. f_equal.
    rewrite map_cons, join_empty_cons. by rewrite !append_assoc.
Qed.

(** The first segment read sets the speaker and starts the buffer. *)
Lemma loop_first_segment seg :
  loop_body speaker_mapping loop_init seg
  = mkLoop [] (Some (mapped_speaker speaker_mapping seg))
      (strip (seg_text seg) +:+ " ").
Proof. reflexivity. Qed.

(** Merging: a run of segments whose mapped speaker is the same gives one
    turn; its text is the trimmed texts joined by single blanks (and trimmed,
    which matters only when the first or the last of them is empty). *)
Lemma same_speaker_run_merges seg rest :
  Forall (fun seg' => mapped_speaker speaker_mapping seg'
                      = mapped_speaker speaker_mapping seg) rest ->
  save_conversation (seg :: rest) speaker_mapping
  = [mkTurn (mapped_speaker speaker_mapping seg)
       (strip (join " " (map (fun s => strip (seg_text s)) (seg :: rest))))].
Proof.
  intros Hall. unfold save_conversation. simpl foldl.
  rewrite loop_first_segment, (loop_same_speaker _ _ _ _ Hall).
  unfold loop_finish. cbn [current_speaker current_text conversation].
  assert (Hbuf : (strip (seg_text seg) +:+ " ")
                 +:+ join "" (map (fun s => strip (seg_text s) +:+ " ") rest)
                 = join " " (map (fun s => strip (seg_text s)) (seg :: rest)) +:+ " ").
  { rewrite map_cons, <- join_trailing, map_cons, join_empty_cons, map_map.
    done. }
  rewrite Hbuf, decide_True by apply append_blank_nonempty.
  by rewrite strip_trailing.
Qed.

(** The turns already emitted do not influence the loop. *)
Lemma loop_frame segments emitted conv cs ct :
  foldl (loop_body speaker_mapping) (mkLoop (emitted ++ conv) cs ct) segments
  = let st := foldl (loop_body speaker_mapping) (mkLoop conv cs ct) segments in
    mkLoop (emitted ++ conversation st) (current_speaker st) (current_text st).
Proof.
  revert conv cs ct. induction segments as [|seg rest IH]; intros conv cs ct.
  - done.
  - simpl foldl. unfold loop_body at 2 4. simpl.
    case_decide; [|apply IH].
    destruct cs as [cs|]; [|apply IH].
    rewrite <- (assoc_L (++)). apply IH.
Qed.

Lemma loop_last_speaker st seg :
  current_speaker (loop_body speaker_mapping st seg)
  = Some (mapped_speaker speaker_mapping seg).
Proof. unfold loop_body. by case_decide. Qed.

(** Splitting: where the mapped speaker changes, the turns before the
    change and the turns after it are those of the two halves. *)
Lemma speaker_change_starts_turn before a b after :
  mapped_speaker speaker_mapping a <> mapped_speaker speaker_mapping b ->
  save_conversation ((before ++ [a]) ++ b :: after) speaker_mapping
  = save_conversation (before ++ [a]) speaker_mapping
    ++ save_conversation (b :: after) speaker_mapping.
Proof.
  intros Hchange. unfold save_conversation.
  rewrite foldl_app. simpl foldl.
  destruct (loop_invariant speaker_mapping (before ++ [a])) as (Hbuf & _).
  pose proof (loop_last_speaker
                (foldl (loop_body speaker_mapping) loop_init before) a) as Hlast.
  rewrite <- foldl_snoc in Hlast.
  destruct (foldl (loop_body speaker_mapping) loop_init (before ++ [a]))
    as [conv cs ct].
  cbn in Hlast. subst cs. unfold buffer_ok in Hbuf. cbn in Hbuf.
  destruct Hbuf as [t Ht]. subst ct.
  rewrite loop_first_segment, loop_body_change by congruence.
  unfold loop_finish at 2. simpl.
  rewrite decide_True by apply append_blank_nonempty.
  rewrite <- (right_id_L [] (++) (conv ++ _)) at 1.
  rewrite loop_frame. simpl.
  unfold loop_finish. simpl.
  destruct (current_speaker _); [|done].
  case_decide; [|done]. by rewrite (assoc_L (++)).
Qed.

End CoalesceLaws.

(** ** Naming scheme: results *)

Section NamingFacts.
Import PyStr Naming.


(** From six parts on, the directory name is the parsed title, an
    underscore, and the parsed date. *)
Lemma dir_name_long stem :
  6 <= length (split "_" stem) ->
  exists title date,
    parse_event stem = Some (title, date)
    /\ dir_name stem = title +:+ "_" +:+ date.
Proof.
  intros Hlen. unfold parse_event, dir_name.
  destruct (Nat.leb_spec 6 (length (split "_" stem))); [|lia].
  by eexists _, _.
Qed.

End NamingFacts.

(** C3, as stated, fails: the stem [AO_REC_WeeklySync_20240115_093000] has
    five underscore-separated parts, so neither the event identity
    (WeeklySync, 2024-01-15) nor the directory name [WeeklySync_2024-01-15]
    is produced. *)
Lemma C3_counterexample :
  Naming.parse_event "AO_REC_WeeklySync_20240115_093000"
    <> Some ("WeeklySync", "2024-01-15")
  /\ Naming.dir_name "AO_REC_WeeklySync_20240115_093000"
    <> "WeeklySync_2024-01-15".
Proof. split; vm_compute; discriminate. Qed.

(** C3, amended: the stem [AO_REC_WeeklySync_20240115_093000] splits into
    five parts, fewer than the six the code asks for, so no event identity is
    parsed and the output directory name is the stem itself; with a title of
    two parts, [AO_REC_Weekly_Sync_20240115_093000], the title is
    [Weekly_Sync], the date 2024-01-15 and the directory name
    [Weekly_Sync_2024-01-15]. *)
Theorem C3_amended :
  length (PyStr.split "_" "AO_REC_WeeklySync_20240115_093000") = 5
  /\ Naming.parse_event "AO_REC_WeeklySync_20240115_093000" = None
  /\ Naming.dir_name "AO_REC_WeeklySync_20240115_093000"
     = "AO_REC_WeeklySync_20240115_093000"
  /\ Naming.parse_event "AO_REC_Weekly_Sync_20240115_093000"
     = Some ("Weekly_Sync", "2024-01-15")
  /\ Naming.dir_name "AO_REC_Weekly_Sync_20240115_093000"
     = "Weekly_Sync_2024-01-15".
Proof. repeat split; vm_compute; reflexivity. Qed.

(** ** Turn coalescing: results *)

(** C4: the words of the space-joined turn texts are the words of the
    space-joined trimmed segment texts, in the same order; hence both
    normalise to the same string, and the two plain concatenations agree
    once every blank is deleted. *)
Theorem C4_turn_text_round_trip
    (segments : list Segment) (speaker_mapping : gmap string string) :
  let turns := Conversation.save_conversation segments speaker_mapping in
  let trimmed := map (fun s => PyStr.strip (seg_text s)) segments in
  PyStr.split_ws (PyStr.join " " (map text turns))
    = PyStr.split_ws (PyStr.join " " trimmed)
  /\ PyStr.normalize_ws (PyStr.join " " (map text turns))
    = PyStr.normalize_ws (PyStr.join " " trimmed)
  /\ PyStr.remove_ws (PyStr.join "" (map text turns))
    = PyStr.remove_ws (PyStr.join "" trimmed).
Proof.
  intros turns trimmed.
  destruct (loop_invariant speaker_mapping segments) as (Hbuf & _ & Hw & Hg).
  destruct (loop_finish_words _ Hbuf) as [Hfw Hfg].
  assert (Hwords : PyStr.split_ws (PyStr.join " " (map text turns))
                   = PyStr.split_ws (PyStr.join " " trimmed)).
  { rewrite !split_ws_join. subst turns trimmed.
    unfold Conversation.save_conversation.
    rewrite !map_map. rewrite Hfw, Hw. f_equal.
    apply map_ext. intros s. by rewrite split_ws_strip. }
  split; [done|]. split.
  - unfold PyStr.normalize_ws. by rewrite Hwords.
  - rewrite !remove_ws_join. subst turns trimmed.
    unfold Conversation.save_conversation.
    rewrite !map_map. rewrite Hfg, Hg. f_equal.
    apply map_ext. intros s. by rewrite remove_ws_strip.
Qed.

Section ScenarioLaws.
Import PyStr Conversation Invariants.
Local Arguments String.append !_ _ / : simpl nomatch.

(** C5: on the three segments Hi/S1, there/S1, Bye/S2 with S1 mapped to
    Alice and S2 to Bob, coalescing yields the two turns
    Alice "Hi there" and Bob "Bye".  The rule behind it holds for every
    list of segments and every speaker map: consecutive segments whose
    mapped speaker is equal are merged into one turn, whose speaker is that
    mapped speaker and whose text is the trimmed texts joined by single
    blanks; and where the mapped speaker changes a new turn starts, so that
    the turns are those of the segments before the change followed by those
    of the segments from the change on. *)
Theorem C5_scenario_turns :
  save_conversation Scenario.segments Scenario.speaker_map
  = [mkTurn "Alice" "Hi there"; mkTurn "Bob" "Bye"]
  /\ (forall (speaker_mapping : gmap string string) seg rest,
        Forall (fun seg' => mapped_speaker speaker_mapping seg'
                            = mapped_speaker speaker_mapping seg) rest ->
        save_conversation (seg :: rest) speaker_mapping
        = [mkTurn (mapped_speaker speaker_mapping seg)
             (strip (join " " (map (fun s => strip (seg_text s)) (seg :: rest))))])
  /\ (forall (speaker_mapping : gmap string string) before a b after,
        mapped_speaker speaker_mapping a <> mapped_speaker speaker_mapping b ->
        save_conversation ((before ++ [a]) ++ b :: after) speaker_mapping
        = save_conversation (before ++ [a]) speaker_mapping
          ++ save_conversation (b :: after) speaker_mapping).
Proof.
  split; [vm_compute; reflexivity|]. split.
  - (* one speaker: the first segment opens the buffer, the others extend it *)
    intros speaker_mapping seg rest Hall. unfold save_conversation.
    simpl foldl.
    rewrite loop_first_segment, (loop_same_speaker _ _ _ _ _ Hall).
    unfold loop_finish. cbn [current_speaker current_text conversation].
    assert (Hbuf : (strip (seg_text seg) +:+ " ")
                   +:+ join "" (map (fun s => strip (seg_text s) +:+ " ") rest)
                   = join " " (map (fun s => strip (seg_text s)) (seg :: rest))
                     +:+ " ").
    { rewrite map_cons, <- join_trailing, map_cons, join_empty_cons, map_map.
      done. }
    rewrite Hbuf, decide_True by apply append_blank_nonempty.
    by rewrite strip_trailing.
  - (* a change: the turn in progress is emitted, and the loop starts afresh *)
    intros speaker_mapping before a b after Hchange. unfold save_conversation.
    rewrite foldl_app. simpl foldl.
    destruct (loop_invariant speaker_mapping (before ++ [a])) as (Hbuf & _).
    pose proof (loop_last_speaker speaker_mapping
                  (foldl (loop_body speaker_mapping) loop_init before) a) as Hlast.
    rewrite <- foldl_snoc in Hlast.
    destruct (foldl (loop_body speaker_mapping) loop_init (before ++ [a]))
      as [conv cs ct].
    cbn in Hlast. subst cs. unfold buffer_ok in Hbuf. cbn in Hbuf.
    destruct Hbuf as [t Ht]. subst ct.
    rewrite loop_first_segment, loop_body_change by congruence.
    unfold loop_finish at 2. simpl.
    rewrite decide_True by apply append_blank_nonempty.
    rewrite <- (right_id_L [] (++) (conv ++ _)) at 1.
    rewrite loop_frame. simpl.
    unfold loop_finish. simpl.
    destruct (current_speaker _); [|done].
    case_decide; [|done]. by rewrite (assoc_L (++)).
Qed.

Lemma C5_scenario_turns_witness :
  save_conversation
    [ mkSegment (Scenario.q 0) (Scenario.q 1) "Hi" (Some "S1");
      mkSegment (Scenario.q 1) (Scenario.q 2) "there" (Some "S1") ]
    Scenario.speaker_map
  = [mkTurn "Alice" (strip (join " " ["Hi"; "there"]))]
  /\ save_conversation
       (([mkSegment (Scenario.q 0) (Scenario.q 1) "Hi" (Some "S1")]
         ++ [mkSegment (Scenario.q 1) (Scenario.q 2) "there" (Some "S1")])
        ++ mkSegment (Scenario.q 2) (Scenario.q 3) "Bye" (Some "S2") :: [])
       Scenario.speaker_map
     = save_conversation
         ([mkSegment (Scenario.q 0) (Scenario.q 1) "Hi" (Some "S1")]
          ++ [mkSegment (Scenario.q 1) (Scenario.q 2) "there" (Some "S1")])
         Scenario.speaker_map
       ++ save_conversation
            [mkSegment (Scenario.q 2) (Scenario.q 3) "Bye" (Some "S2")]
            Scenario.speaker_map.
Proof.
  destruct C5_scenario_turns as (_ & Hmerge & Hsplit). split.
  - apply (Hmerge Scenario.speaker_map
             (mkSegment (Scenario.q 0) (Scenario.q 1) "Hi" (Some "S1"))
             [mkSegment (Scenario.q 1) (Scenario.q 2) "there" (Some "S1")]).
    repeat constructor.
  - apply (Hsplit Scenario.speaker_map). vm_compute. discriminate.
Defined.

End ScenarioLaws.

(** C10: in the list of turns produced by coalescing, a turn and the turn
    right after it never have the same speaker. *)
Theorem C10_adjacent_turns_differ
    (segments : list Segment) (speaker_mapping : gmap string string)
    (i : nat) (t1 t2 : Turn) :
  Conversation.save_conversation segments speaker_mapping !! i = Some t1 ->
  Conversation.save_conversation segments speaker_mapping !! S i = Some t2 ->
  speaker t1 <> speaker t2.
Proof.
  destruct (loop_invariant speaker_mapping segments) as (_ & Hsp & _).
  apply (loop_finish_alternating _ Hsp).
Qed.

Lemma C10_adjacent_turns_differ_witness :
  speaker (mkTurn "Alice" "Hi there") <> speaker (mkTurn "Bob" "Bye").
Proof.
  apply (C10_adjacent_turns_differ Scenario.segments Scenario.speaker_map 0);
    vm_compute; reflexivity.
Defined.

(** ** The text artifact: results *)

Lemma save_text_format_writes_from written segments speaker_mapping :
  foldl (fun written segment =>
           written ++ [Conversation.text_line speaker_mapping segment])
        written segments
  = written ++ map (Conversation.text_line speaker_mapping) segments.
Proof.
  revert written. induction segments as [|s segments IH]; intros written; simpl.
  - by rewrite (right_id_L [] (++)).
  - by rewrite IH, <- (assoc_L (++)).
Qed.

(** C6, as stated, fails: for the three segments of the scenario the text
    file receives three lines, one per segment, while there are two turns;
    its content is not the one-line-per-turn rendering. *)
Lemma C6_counterexample :
  length (Conversation.save_text_format_writes Scenario.segments Scenario.speaker_map) = 3
  /\ length (Conversation.save_conversation Scenario.segments Scenario.speaker_map) = 2
  /\ Conversation.save_text_format Scenario.segments Scenario.speaker_map
     <> Conversation.turn_text_file
          (Conversation.save_conversation Scenario.segments Scenario.speaker_map).
Proof. repeat split; vm_compute; discriminate. Qed.

(** C6, amended: the text file holds exactly one line per segment, in
    segment order, each made of the mapped speaker, a colon and a blank, the
    trimmed segment text and a line feed. *)
Theorem C6_amended
    (segments : list Segment) (speaker_mapping : gmap string string) :
  Conversation.save_text_format_writes segments speaker_mapping
    = map (fun segment =>
             Conversation.mapped_speaker speaker_mapping segment
             +:+ ": " +:+ PyStr.strip (seg_text segment) +:+ String "010" "")
          segments
  /\ length (Conversation.save_text_format_writes segments speaker_mapping)
     = length segments
  /\ Conversation.save_text_format segments speaker_mapping
     = PyStr.join "" (map (Conversation.text_line speaker_mapping) segments).
Proof.
  unfold Conversation.save_text_format, Conversation.save_text_format_writes.
  rewrite save_text_format_writes_from. simpl.
  split; [done|]. split; [by rewrite length_map | done].
Qed.

(** ** The trace monad: equations *)

Section MonadFacts.
Context {A B : Type}.

Lemma trace_bind (m : M A) (f : A -> M B) :
  trace (m ≫= f)
  = trace m ++ match outcome m with Ok a => trace (f a) | Raise _ => [] end.
Proof.
  destruct m as [tr [a|e]]; unfold trace, outcome, mbind, M_bind; simpl.
  - done.
  - by rewrite (right_id_L [] (++)).
Qed.

Lemma outcome_bind (m : M A) (f : A -> M B) :
  outcome (m ≫= f)
  = match outcome m with Ok a => outcome (f a) | Raise e => Raise e end.
Proof. by destruct m as [tr [a|e]]. Qed.

Lemma trace_try_except (body : M A) (handler : exn -> M A) :
  trace (try_except body handler)
  = trace body
    ++ match outcome body with Ok _ => [] | Raise e => trace (handler e) end.
Proof.
  destruct body as [tr [a|e]]; unfold trace, outcome, try_except; simpl.
  - by rewrite (right_id_L [] (++)).
  - done.
Qed.

Lemma outcome_try_except (body : M A) (handler : exn -> M A) :
  outcome (try_except body handler)
  = match outcome body with Ok a => Ok a | Raise e => outcome (handler e) end.
Proof. by destruct body as [tr [a|e]]. Qed.

Lemma Forall_trace_bind (P : event -> Prop) (m : M A) (f : A -> M B) :
  Forall P (trace m) ->
  (forall a, outcome m = Ok a -> Forall P (trace (f a))) ->
  Forall P (trace (m ≫= f)).
Proof.
  intros Hm Hf. rewrite trace_bind. apply Forall_app. split; [done|].
  destruct (outcome m); [by apply Hf | constructor].
Qed.

Lemma Forall_trace_try_except (P : event -> Prop) (body : M A) handler :
  Forall P (trace body) ->
  (forall e, Forall P (trace (handler e))) ->
  Forall P (trace (try_except body handler)).
Proof.
  intros Hb Hh. rewrite trace_try_except. apply Forall_app. split; [done|].
  destruct (outcome body); [constructor | apply Hh].
Qed.

End MonadFacts.

Lemma Forall_trace_lift {A} (P : event -> Prop) (r : result A) :
  Forall P (trace (lift r)).
Proof. constructor. Qed.

Lemma Forall_trace_ret {A} (P : event -> Prop) (a : A) :
  Forall P (trace (mret a)).
Proof. constructor. Qed.

Lemma Forall_trace_emit (P : event -> Prop) (e : event) :
  P e -> Forall P (trace (emit e)).
Proof. intros. by repeat constructor. Qed.

(** Unfolds the monad operations and computes. *)
Ltac run_M :=
  unfold mbind, M_bind, mret, M_ret, emit, lift, try_except, trace, outcome in *;
  simpl in *.

Create HintDb traces.

(** Proves [Forall P (trace prog)] by following the shape of [prog]; facts
    about sub-programs are taken from the hint database [traces]. *)
Ltac trace_all :=
  repeat first
    [ assumption
    | solve [auto 2 with traces]
    | apply Forall_nil_2
    | apply Forall_trace_ret
    | apply Forall_trace_lift
    | apply Forall_trace_emit; simpl; try done
    | apply Forall_trace_try_except; [|intros ?]
    | apply Forall_trace_bind; [|intros ? ?]
    | match goal with
      | |- Forall _ (trace (if ?b then _ else _)) => destruct b
      | |- Forall _ (trace (let '(_, _) := ?p in _)) => destruct p
      end ].

(** ** Metadata resolution: results *)

Section MetadataFacts.
Import Observe.
Context (w : World).

(** A record the loop returns is an object that has the key. *)
Lemma examine_hit st v :
  examine st = Hit v -> st = Parsed v /\ valid_record st = true.
Proof.
  destruct st as [| | |v']; simpl; try done.
  destruct v' as [| | | | s | items | items]; simpl; try done.
  - by destruct (PyStr.contains _ s).
  - by destruct (existsb _ items).
  - destruct (Py.has_key _ items) eqn:Hk; [|done].
    destruct (Py.lookup_key _ items); [|done]. by intros [= <-].
Qed.

Lemma has_key_lookup key items :
  Py.has_key key items = true -> exists v, Py.lookup_key key items = Some v.
Proof.
  induction items as [|[k v] items IH]; simpl; [done|].
  destruct (String.eqb key k); simpl; [by eexists | done].
Qed.

Lemma examine_valid items :
  Py.has_key "speaker_count" items = true ->
  examine (Parsed (JObj items)) = Hit (JObj items).
Proof.
  intros Hk. unfold examine, Py.contains, Py.getitem. rewrite Hk.
  by destruct (has_key_lookup _ _ Hk) as [v ->].
Qed.

Lemma examine_exists st v : examine st = Hit v -> file_exists st = true.
Proof. intros Hex. by destruct (examine_hit _ _ Hex) as [-> _]. Qed.

(** One iteration of the loop, by what it finds. *)
Lemma search_locations_cons wav_file location desc rest :
  search_locations w wav_file ((location, desc) :: rest)
  = match examine (fs w location) with
    | Hit v => (visit_trace (fs w location) location,
                Ok (v, PathLib.to_str location))
    | Abort e => (visit_trace (fs w location) location, Raise e)
    | Miss =>
        (visit_trace (fs w location) location
           ++ trace (search_locations w wav_file rest),
         outcome (search_locations w wav_file rest))
    end.
Proof.
  simpl. unfold visit_trace, examine.
  destruct (search_locations w wav_file rest) as [tr r].
  destruct (fs w location) as [| | |v]; run_M; try done.
  destruct (Py.contains "speaker_count" v) as [[|]|e]; run_M; try done.
  by destruct (Py.getitem v "speaker_count").
Qed.

Lemma probed_visit st location : probed (visit_trace st location) = [location].
Proof. unfold visit_trace. by destruct (file_exists st). Qed.

Lemma probed_app a b : probed (a ++ b) = probed a ++ probed b.
Proof. apply omap_app. Qed.

(** Misses are skipped: the search behaves as on the remaining list, after
    testing each skipped location once. *)
Lemma search_locations_skip wav_file before rest :
  Forall (fun l => examine (fs w l.1) = Miss) before ->
  outcome (search_locations w wav_file (before ++ rest))
    = outcome (search_locations w wav_file rest)
  /\ probed (trace (search_locations w wav_file (before ++ rest)))
    = map fst before ++ probed (trace (search_locations w wav_file rest)).
Proof.
  induction 1 as [|[location desc] before Hmiss _ [IHo IHp]]; [done|].
  rewrite <- app_comm_cons, search_locations_cons. simpl in Hmiss.
  rewrite Hmiss. unfold outcome, trace in *. simpl.
  split; [done|]. by rewrite probed_app, probed_visit, IHp.
Qed.

Lemma search_locations_nil wav_file :
  search_locations w wav_file [] = ([EvLogWarning wav_file], Ok (JNull, "")).
Proof. reflexivity. Qed.

(** What the skipped locations leave in the trace stands before the rest. *)
Lemma search_locations_skip_trace wav_file before rest :
  Forall (fun l => examine (fs w l.1) = Miss) before ->
  exists visited,
    trace (search_locations w wav_file (before ++ rest))
    = visited ++ trace (search_locations w wav_file rest).
Proof.
  induction 1 as [|[location desc] before Hmiss _ [visited IH]]; [by exists []|].
  rewrite <- app_comm_cons, search_locations_cons. simpl in Hmiss.
  rewrite Hmiss. unfold trace at 1. cbn [fst]. rewrite IH.
  exists (visit_trace (fs w location) location ++ visited).
  by rewrite (assoc_L (++)).
Qed.

(** The handler of [load_metadata] logs the error it swallows. *)
Lemma load_metadata_trace wav_file :
  trace (load_metadata w wav_file)
  = trace (search_locations w wav_file (metadata_locations wav_file))
    ++ match outcome (search_locations w wav_file (metadata_locations wav_file)) with
       | Ok _ => []
       | Raise _ => [EvLogError wav_file]
       end.
Proof.
  unfold load_metadata. rewrite trace_try_except.
  by destruct (outcome (search_locations _ _ _)).
Qed.

(** Whatever the search does, [load_metadata] returns. *)
Lemma load_metadata_outcome wav_file :
  outcome (load_metadata w wav_file)
  = match outcome (search_locations w wav_file (metadata_locations wav_file)) with
    | Ok r => Ok r
    | Raise _ => Ok (JNull, "")
    end.
Proof. unfold load_metadata. by rewrite outcome_try_except. Qed.

Lemma load_metadata_probed wav_file :
  probed (trace (load_metadata w wav_file))
  = probed (trace (search_locations w wav_file (metadata_locations wav_file))).
Proof.
  unfold load_metadata. rewrite trace_try_except, probed_app.
  destruct (outcome _); simpl; by rewrite (right_id_L [] (++)).
Qed.

(** Without a valid record the search ends empty-handed or raises. *)
Lemma search_locations_no_record wav_file locations :
  Forall (fun l => valid_record (fs w l.1) = false) locations ->
  outcome (search_locations w wav_file locations) = Ok (JNull, "")
  \/ exists e, outcome (search_locations w wav_file locations) = Raise e.
Proof.
  induction 1 as [|[location desc] rest Hinv _ IH]; [by left|].
  rewrite search_locations_cons. simpl in Hinv.
  destruct (examine (fs w location)) as [v| |e] eqn:Hex.
  - apply examine_hit in Hex as [_ Hv]. congruence.
  - done.
  - right. by eexists.
Qed.

Lemma load_metadata_quiet wav_file :
  Forall quiet (trace (load_metadata w wav_file)).
Proof.
  unfold load_metadata. apply Forall_trace_try_except; [|intros e; trace_all].
  induction (metadata_locations wav_file) as [|[location desc] rest IH].
  - simpl. trace_all.
  - rewrite search_locations_cons.
    assert (Forall quiet (visit_trace (fs w location) location)).
    { unfold visit_trace. destruct (file_exists _); by repeat constructor. }
    destruct (examine _); unfold trace; simpl; [done| |done].
    by apply Forall_app.
Qed.

End MetadataFacts.

(** C1, as stated, fails: with a sidecar next to the recording that is not
    JSON and a valid record at the workspace root, [load_metadata] returns
    absent, and the workspace root was never examined. *)
Lemma C1_counterexample :
  let w := Fixtures.happy Fixtures.garbled_then_valid in
  let run := load_metadata w Fixtures.recording in
  map fst (metadata_locations Fixtures.recording) !! 1 = Some Fixtures.root_sidecar
  /\ Observe.valid_record (fs w Fixtures.root_sidecar) = true
  /\ outcome run = Ok (JNull, "")
  /\ Observe.probed (trace run) = [Fixtures.parent_sidecar].
Proof. repeat split; vm_compute; reflexivity. Qed.

(** C1, amended: resolution examines the three candidate locations in order
    (parent directory, workspace root, output directory) and never raises.
    A candidate that is missing, or that parses but does not contain
    [speaker_count], is a miss and the search goes on; the first candidate
    that is a valid record is returned with its location, and no error is
    logged; an I/O or parse error on a candidate is swallowed and logged (the
    log entry is the last thing resolution does), but it ends resolution at
    once with absent, the remaining candidates unexamined.  When every
    candidate is a miss, all three are examined, a warning is logged and the
    result is absent. *)
Theorem C1_amended (w : World) (wav_file : Path) :
  let run := load_metadata w wav_file in
  let locations := map fst (metadata_locations wav_file) in
  (exists metadata location, outcome run = Ok (metadata, location))
  /\ (forall before location after,
        locations = before ++ location :: after ->
        Forall (fun l => Observe.examine (fs w l) = Observe.Miss) before ->
        match Observe.examine (fs w location) with
        | Observe.Hit v =>
            outcome run = Ok (v, PathLib.to_str location)
            /\ Observe.probed (trace run) = before ++ [location]
            /\ last (trace run) = Some (EvOpen location)
        | Observe.Abort _ =>
            outcome run = Ok (JNull, "")
            /\ Observe.probed (trace run) = before ++ [location]
            /\ last (trace run) = Some (EvLogError wav_file)
        | Observe.Miss => True
        end)
  /\ (Forall (fun l => Observe.examine (fs w l) = Observe.Miss) locations ->
        outcome run = Ok (JNull, "")
        /\ Observe.probed (trace run) = locations
        /\ last (trace run) = Some (EvLogWarning wav_file)).
Proof.
  intros run locations. subst run.
  split; [|split].
  - rewrite load_metadata_outcome.
    destruct (outcome (search_locations _ _ _)) as [[md loc]|e]; by eexists _, _.
  - intros before location after Hsplit Hmiss.
    rewrite load_metadata_outcome, load_metadata_probed, load_metadata_trace.
    subst locations.
    apply map_eq_app in Hsplit as (lb & rest & Hl & Hb & Hrest).
    destruct rest as [|[location' desc] la]; [done|].
    simpl in Hrest. injection Hrest as Hloc Ha. subst location' before.
    rewrite Hl.
    apply Forall_fmap in Hmiss.
    destruct (search_locations_skip w wav_file lb ((location, desc) :: la))
      as [Ho Hp]; [done|].
    destruct (search_locations_skip_trace w wav_file lb ((location, desc) :: la))
      as [visited Ht]; [done|].
    rewrite Ho, Hp, Ht, search_locations_cons.
    destruct (Observe.examine (fs w location)) as [v| |e] eqn:Hex;
      unfold outcome, trace; cbn [fst snd]; [|done|].
    + rewrite probed_visit. split_and!; [done..|].
      apply examine_exists in Hex. unfold Observe.visit_trace.
      rewrite Hex, (right_id_L [] (++)).
      change [EvExists location; EvOpen location]
        with ([EvExists location] ++ [EvOpen location]).
      by rewrite (assoc_L (++)), last_snoc.
    + rewrite probed_visit. split_and!; [done..|].
      apply last_snoc.
  - intros Hmiss.
    rewrite load_metadata_outcome, load_metadata_probed, load_metadata_trace.
    subst locations. apply Forall_fmap in Hmiss.
    destruct (search_locations_skip w wav_file (metadata_locations wav_file) [])
      as [Ho Hp]; [done|].
    destruct (search_locations_skip_trace w wav_file (metadata_locations wav_file) [])
      as [visited Ht]; [done|].
    rewrite (right_id_L [] (++)) in Ho, Hp, Ht. rewrite Ho, Hp, Ht.
    rewrite search_locations_nil. unfold outcome, trace. cbn [fst snd].
    split_and!; [done..|].
    by rewrite (right_id_L [] (++)), last_snoc.
Qed.

Lemma C1_amended_witness :
  let w := Fixtures.happy Fixtures.garbled_then_valid in
  outcome (load_metadata w Fixtures.recording) = Ok (JNull, "")
  /\ Observe.probed (trace (load_metadata w Fixtures.recording))
     = [] ++ [Fixtures.parent_sidecar]
  /\ last (trace (load_metadata w Fixtures.recording))
     = Some (EvLogError Fixtures.recording).
Proof.
  intros w.
  destruct (C1_amended w Fixtures.recording) as (_ & Hstep & _).
  apply (Hstep [] Fixtures.parent_sidecar
           (list.drop 1 (map fst (metadata_locations Fixtures.recording)))).
  - vm_compute. reflexivity.
  - constructor.
Defined.

(** C7: with a valid record both next to the recording and at the workspace
    root, [load_metadata] returns the record next to the recording together
    with that location, having tested and opened that location only. *)
Theorem C7_parent_directory_wins
    (w : World) (wav_file : Path) (items_parent items_root : list (string * json)) :
  let sidecar := PathLib.stem wav_file +:+ "_metadata.json" in
  let in_parent := PathLib.child (PathLib.parent wav_file) sidecar in
  let in_root := PathLib.child workspace_dir sidecar in
  fs w in_parent = Parsed (JObj items_parent) ->
  Py.has_key "speaker_count" items_parent = true ->
  fs w in_root = Parsed (JObj items_root) ->
  Py.has_key "speaker_count" items_root = true ->
  load_metadata w wav_file
  = ([EvExists in_parent; EvOpen in_parent],
     Ok (JObj items_parent, PathLib.to_str in_parent)).
Proof.
  intros sidecar in_parent in_root Hparent Hkey _ _.
  unfold load_metadata, metadata_locations.
  fold sidecar. fold in_parent.
  rewrite search_locations_cons, Hparent, (examine_valid _ Hkey).
  reflexivity.
Qed.

Lemma C7_parent_directory_wins_witness :
  load_metadata (Fixtures.happy Fixtures.both_sidecars) Fixtures.recording
  = ([EvExists Fixtures.parent_sidecar; EvOpen Fixtures.parent_sidecar],
     Ok (Fixtures.three_speakers, "/data/rec_metadata.json")).
Proof.
  apply (C7_parent_directory_wins (Fixtures.happy Fixtures.both_sidecars)
           Fixtures.recording
           [("speaker_count", JInt 3); ("title", JStr "Weekly")]
           [("speaker_count", JInt 4)]);
    vm_compute; reflexivity.
Defined.

(** ** The per-recording pipeline: results *)

Section PipelineFacts.
Import Observe.
Context (w : World).

Lemma quiet_bounds speaker_count e : quiet e -> bounds_are speaker_count e.
Proof. by destruct e. Qed.

Lemma print_attendees_quiet attendees :
  Forall quiet (trace (print_attendees attendees)).
Proof. induction attendees as [|a rest IH]; simpl; trace_all. Qed.

Lemma fill_speaker_mapping_quiet i attendees speaker_mapping :
  Forall quiet (trace (fill_speaker_mapping i attendees speaker_mapping)).
Proof.
  revert i speaker_mapping.
  induction attendees as [|a rest IH]; intros i speaker_mapping; simpl;
    trace_all; apply IH.
Qed.

Hint Resolve print_attendees_quiet fill_speaker_mapping_quiet : traces.

Lemma resolve_speaker_count_quiet metadata :
  Forall quiet (trace (resolve_speaker_count metadata)).
Proof. unfold resolve_speaker_count. trace_all. Qed.

Lemma save_results_quiet result audio_path output_dir metadata :
  Forall quiet (trace (save_results w result audio_path output_dir metadata)).
Proof.
  unfold save_results, write_artifact. trace_all.
Qed.

Lemma save_results_bounds result audio_path output_dir metadata speaker_count :
  Forall (bounds_are speaker_count)
         (trace (save_results w result audio_path output_dir metadata)).
Proof.
  eapply Forall_impl; [apply save_results_quiet | apply quiet_bounds].
Qed.

Hint Resolve save_results_quiet save_results_bounds : traces.

(** The diarizer is only ever asked for exactly [speaker_count] speakers. *)
Lemma run_stages_bounds audio_path output_dir speaker_count :
  Forall (bounds_are speaker_count)
         (trace (run_stages w audio_path output_dir speaker_count)).
Proof.
  unfold run_stages. trace_all.
Qed.

(** *** Residency along a trace *)

Lemma resident_from_app held a b :
  resident_from held (a ++ b) = resident_from (resident_from held a) b.
Proof. apply foldl_app. Qed.

Lemma resident_from_quiet held tr :
  Forall quiet tr -> resident_from held tr = held.
Proof.
  induction 1 as [|e tr He _ IH]; [done|].
  simpl. unfold resident_from in IH. by destruct e.
Qed.

Lemma disciplined_start held tr : disciplined held tr -> held_ok held.
Proof. destruct tr; simpl; tauto. Qed.

Lemma disciplined_quiet held tr :
  held_ok held -> Forall quiet tr -> disciplined held tr.
Proof.
  intros Hheld. induction 1 as [|e tr He _ IH]; [done|].
  simpl. split; [done|]. by destruct e.
Qed.

Lemma disciplined_app held a b :
  disciplined held a -> disciplined (resident_from held a) b ->
  disciplined held (a ++ b).
Proof.
  revert held. induction a as [|e a IH]; intros held Ha Hb; [done|].
  simpl in *. destruct Ha as (? & ? & ?). auto.
Qed.

(** At every cut of a disciplined trace the bound holds. *)
Lemma disciplined_prefix held pre post :
  disciplined held (pre ++ post) -> held_ok (resident_from held pre).
Proof.
  revert held. induction pre as [|e pre IH]; intros held H.
  - by eapply disciplined_start.
  - simpl in *. apply IH. tauto.
Qed.

(** Every event of a disciplined trace meets what is resident before it. *)
Lemma disciplined_event held pre e post :
  disciplined held (pre ++ e :: post) -> event_ok (resident_from held pre) e.
Proof.
  revert held. induction pre as [|e' pre IH]; intros held H; simpl in *.
  - tauto.
  - apply IH. tauto.
Qed.

Lemma held_ok_nil : held_ok [].
Proof. split; [simpl; lia | by intros ?%elem_of_nil]. Qed.

Lemma held_ok_asr : held_ok [ASR].
Proof. split; [simpl; lia | by intros [=]%list_elem_of_singleton]. Qed.

Lemma held_ok_asr_aligner : held_ok [ASR; ALIGNER].
Proof.
  split; [simpl; lia|].
  intros H. apply elem_of_cons in H as [[=]|H].
  by apply list_elem_of_singleton in H.
Qed.

Lemma held_ok_aligner : held_ok [ALIGNER].
Proof. split; [simpl; lia | by intros [=]%list_elem_of_singleton]. Qed.

Lemma held_ok_diarizer : held_ok [DIARIZER].
Proof. split; [simpl; lia | done]. Qed.

Lemma trace_emit_bind {A} e (f : unit -> M A) :
  trace (emit e ≫= f) = e :: trace (f tt).
Proof. by rewrite trace_bind. Qed.

Lemma trace_lift_bind {A B} (r : result A) (f : A -> M B) :
  trace (lift r ≫= f) = match r with Ok a => trace (f a) | Raise _ => [] end.
Proof. by rewrite trace_bind. Qed.

(** An emitted event is checked against what is resident, then the rest of
    the program runs with the residency it leaves. *)
Lemma disciplined_emit {A} held e (f : unit -> M A) tail :
  held_ok held -> event_ok held e ->
  disciplined (resident_step held e) (trace (f tt) ++ tail) ->
  disciplined held (trace (emit e ≫= f) ++ tail).
Proof. intros. rewrite trace_emit_bind. simpl. auto. Qed.

(** A gateway call either returns, and the program goes on, or raises, and
    only [tail] follows. *)
Lemma disciplined_lift {A B} held (r : result A) (f : A -> M B) tail :
  (forall a, disciplined held (trace (f a) ++ tail)) ->
  disciplined held tail ->
  disciplined held (trace (lift r ≫= f) ++ tail).
Proof. intros Hok Hraise. rewrite trace_lift_bind. destruct r; [apply Hok | done]. Qed.

(** The stages, followed by anything quiet, keep the discipline. *)
Lemma run_stages_disciplined audio_path output_dir speaker_count tail :
  Forall quiet tail ->
  disciplined [] (trace (run_stages w audio_path output_dir speaker_count) ++ tail).
Proof.
  intros Htail. unfold run_stages.
  pose proof held_ok_nil. pose proof held_ok_asr.
  pose proof held_ok_asr_aligner. pose proof held_ok_aligner.
  pose proof held_ok_diarizer.
  repeat first
    [ apply disciplined_emit; [done | done | simpl resident_step]
    | apply disciplined_lift; [intros ? | by apply disciplined_quiet] ].
  apply disciplined_quiet; [done|].
  apply Forall_app. split; [|done]. trace_all.
Qed.

Lemma process_audio_file_disciplined audio_path output_dir :
  disciplined [] (trace (process_audio_file w audio_path output_dir)).
Proof.
  unfold process_audio_file. rewrite trace_bind.
  pose proof (load_metadata_quiet w audio_path) as Hmeta.
  apply disciplined_app; [by apply disciplined_quiet, Hmeta; apply held_ok_nil|].
  rewrite (resident_from_quiet _ _ Hmeta).
  destruct (outcome (load_metadata w audio_path)) as [[metadata location]|];
    [|apply held_ok_nil].
  rewrite trace_bind.
  pose proof (resolve_speaker_count_quiet metadata) as Hres.
  apply disciplined_app; [by apply disciplined_quiet, Hres; apply held_ok_nil|].
  rewrite (resident_from_quiet _ _ Hres).
  destruct (outcome (resolve_speaker_count metadata)) as [speaker_count|];
    [|apply held_ok_nil].
  rewrite trace_try_except. apply run_stages_disciplined.
  destruct (outcome _); [constructor | by repeat constructor].
Qed.

(** *** Release before the diarization model is built *)

Lemma heralded_quiet seen tr : Forall quiet tr -> heralded seen tr.
Proof.
  intros Hq. revert seen. induction Hq as [|e tr He _ IH]; intros seen; [done|].
  simpl. split; [|apply IH]. intros ->. done.
Qed.

Lemma heralded_app seen a b :
  heralded seen a -> heralded (seen ++ a) b -> heralded seen (a ++ b).
Proof.
  revert seen. induction a as [|e a IH]; intros seen Ha Hb.
  - by rewrite (right_id_L [] (++)) in Hb.
  - simpl in *. destruct Ha as [? ?]. split; [done|].
    apply IH; [done|]. by rewrite <- (assoc_L (++)).
Qed.

Lemma heralded_event seen pre post :
  heralded seen (pre ++ EvBind DIARIZER :: post) ->
  release `suffix_of` (seen ++ pre).
Proof.
  revert seen. induction pre as [|e pre IH]; intros seen H; simpl in H.
  - rewrite (right_id_L [] (++)). by apply H.
  - destruct H as [_ H]. apply IH in H. by rewrite <- (assoc_L (++)) in H.
Qed.

Lemma heralded_emit {A} seen e (f : unit -> M A) tail :
  (e = EvBind DIARIZER -> release `suffix_of` seen) ->
  heralded (seen ++ [e]) (trace (f tt) ++ tail) ->
  heralded seen (trace (emit e ≫= f) ++ tail).
Proof. intros. rewrite trace_emit_bind. simpl. auto. Qed.

Lemma heralded_lift {A B} seen (r : result A) (f : A -> M B) tail :
  (forall a, heralded seen (trace (f a) ++ tail)) ->
  heralded seen tail ->
  heralded seen (trace (lift r ≫= f) ++ tail).
Proof. intros Hok Hraise. rewrite trace_lift_bind. destruct r; [apply Hok | done]. Qed.

(** The stages, after anything and followed by anything quiet, build the
    diarization model only right after the release. *)
Lemma run_stages_heralded audio_path output_dir speaker_count seen tail :
  Forall quiet tail ->
  heralded seen (trace (run_stages w audio_path output_dir speaker_count) ++ tail).
Proof.
  intros Htail. unfold run_stages.
  repeat first
    [ apply heralded_emit;
        [ first [ discriminate
                | intros _; unfold release;
                  match goal with
                  | |- _ `suffix_of` (((((?front ++ _) ++ _) ++ _) ++ _) ++ _) =>
                      exists front; by rewrite <- !(assoc_L (++))
                  end ]
        | ]
    | apply heralded_lift; [intros ? | by apply heralded_quiet] ].
  apply heralded_quiet. apply Forall_app. split; [|done]. trace_all.
Qed.

Lemma process_audio_file_heralded audio_path output_dir :
  heralded [] (trace (process_audio_file w audio_path output_dir)).
Proof.
  unfold process_audio_file. rewrite trace_bind.
  pose proof (load_metadata_quiet w audio_path) as Hmeta.
  apply heralded_app; [by apply heralded_quiet|].
  destruct (outcome (load_metadata w audio_path)) as [[metadata location]|];
    [|done].
  rewrite trace_bind.
  pose proof (resolve_speaker_count_quiet metadata) as Hres.
  apply heralded_app; [by apply heralded_quiet|].
  destruct (outcome (resolve_speaker_count metadata)) as [speaker_count|];
    [|done].
  rewrite trace_try_except. apply run_stages_heralded.
  destruct (outcome _); [constructor | by repeat constructor].
Qed.

End PipelineFacts.

(** C2, as stated, fails: when every stage succeeds, the transcription model
    and the alignment model are both resident at the moment the Align stage
    is invoked, and the transcription model is released only later. *)
Lemma C2_counterexample :
  let run := process_audio_file (Fixtures.happy Fixtures.no_sidecar)
               Fixtures.recording Fixtures.output_dir in
  exists pre post,
    trace run = pre ++ EvCall Align :: post
    /\ Observe.resident pre = [ASR; ALIGNER]
    /\ EvDel ASR ∈ post.
Proof.
  intros run.
  exists (take 9 (trace run)), (list.drop 10 (trace run)).
  split; [|split]; vm_compute; [reflexivity..|].
  apply list_elem_of_here.
Qed.

(** C2, amended: in the per-recording pipeline the transcription model stays
    resident through the Align stage, where it is held together with the
    alignment model; both are released after Align and before the
    diarization model is created: what comes right before the creation of the
    diarization model is the Align stage, [del model], [del model_a],
    [gc.collect()] and [torch.cuda.empty_cache()], in this order.  So at
    every point of processing at most two model instances are resident, and
    the diarization model is never resident together with another one. *)
Theorem C2_amended (w : World) (audio_path output_dir : Path) :
  let tr := trace (process_audio_file w audio_path output_dir) in
  (forall pre post,
     tr = pre ++ post ->
     length (Observe.resident pre) <= 2
     /\ (DIARIZER ∈ Observe.resident pre -> Observe.resident pre = [DIARIZER]))
  /\ (forall pre post,
        tr = pre ++ EvCall Align :: post -> Observe.resident pre = [ASR; ALIGNER])
  /\ (forall pre post,
        tr = pre ++ EvBind DIARIZER :: post ->
        Observe.resident pre = []
        /\ [EvCall Align; EvDel ASR; EvDel ALIGNER; EvGcCollect; EvEmptyCache]
             `suffix_of` pre)
  /\ (forall pre post,
        tr = pre ++ EvCall Diarize :: post -> Observe.resident pre = [DIARIZER]).
Proof.
  intros tr.
  pose proof (process_audio_file_disciplined w audio_path output_dir) as H.
  pose proof (process_audio_file_heralded w audio_path output_dir) as Hrel.
  fold tr in H, Hrel. split_and!; intros pre post Htr; rewrite Htr in H, Hrel.
  - by apply disciplined_prefix in H.
  - by apply disciplined_event in H.
  - split; [by apply disciplined_event in H|].
    by apply heralded_event in Hrel.
  - by apply disciplined_event in H.
Qed.

Lemma C2_amended_witness :
  let tr := trace (process_audio_file (Fixtures.happy Fixtures.no_sidecar)
                     Fixtures.recording Fixtures.output_dir) in
  Observe.resident (take 9 tr) = [ASR; ALIGNER]
  /\ [EvCall Align; EvDel ASR; EvDel ALIGNER; EvGcCollect; EvEmptyCache]
       `suffix_of` take 14 tr.
Proof.
  intros tr.
  destruct (C2_amended (Fixtures.happy Fixtures.no_sidecar)
              Fixtures.recording Fixtures.output_dir)
    as (_ & Halign & Hrelease & _).
  split.
  - apply (Halign (take 9 tr) (list.drop 10 tr)).
    vm_compute. reflexivity.
  - apply (Hrelease (take 14 tr) (list.drop 15 tr)).
    vm_compute. reflexivity.
Defined.

(** C8: when no candidate location holds a valid metadata record,
    [load_metadata] returns absent, the speaker count resolved from it is the
    default 2, and every request made to the diarizer asks for exactly 2
    speakers. *)
Theorem C8_default_speaker_count (w : World) (audio_path output_dir : Path) :
  Forall (fun l => Observe.valid_record (fs w l.1) = false)
         (metadata_locations audio_path) ->
  outcome (load_metadata w audio_path) = Ok (JNull, "")
  /\ outcome (resolve_speaker_count JNull) = Ok (JInt 2)
  /\ Forall (Observe.bounds_are (JInt 2))
            (trace (process_audio_file w audio_path output_dir)).
Proof.
  intros Hnone.
  assert (Habsent : outcome (load_metadata w audio_path) = Ok (JNull, "")).
  { rewrite load_metadata_outcome.
    by destruct (search_locations_no_record w audio_path _ Hnone) as [->|[e ->]]. }
  split; [done|]. split; [reflexivity|].
  unfold process_audio_file. apply Forall_trace_bind.
  - eapply Forall_impl; [apply load_metadata_quiet | apply quiet_bounds].
  - intros [metadata location] Hok. rewrite Habsent in Hok.
    injection Hok as <- <-.
    apply Forall_trace_bind.
    + eapply Forall_impl; [apply resolve_speaker_count_quiet | apply quiet_bounds].
    + intros speaker_count [= <-].
      apply Forall_trace_try_except; [apply run_stages_bounds|].
      intros e. by repeat constructor.
Qed.

Lemma C8_default_speaker_count_witness :
  let w := Fixtures.happy Fixtures.no_sidecar in
  (outcome (load_metadata w Fixtures.recording) = Ok (JNull, "")
   /\ outcome (resolve_speaker_count JNull) = Ok (JInt 2)
   /\ Forall (Observe.bounds_are (JInt 2))
             (trace (process_audio_file w Fixtures.recording Fixtures.output_dir)))
  /\ EvDiarizeBounds (JInt 2) (JInt 2)
       ∈ trace (process_audio_file w Fixtures.recording Fixtures.output_dir).
Proof.
  intros w. split.
  - apply (C8_default_speaker_count w Fixtures.recording Fixtures.output_dir).
    vm_compute. repeat constructor.
  - vm_compute. do 16 apply list_elem_of_further. apply list_elem_of_here.
Defined.

(** ** The batch loop: results *)

Section BatchFacts.
Import Observe.
Context (w : World).

Lemma outcome_emit_bind {A} e (f : unit -> M A) :
  outcome (emit e ≫= f) = outcome (f tt).
Proof. by rewrite outcome_bind. Qed.

Lemma outcome_lift_bind {A B} (r : result A) (f : A -> M B) :
  outcome (lift r ≫= f)
  = match r with Ok a => outcome (f a) | Raise e => Raise e end.
Proof. by rewrite outcome_bind. Qed.

(** The directory [process_all_files] creates for a recording. *)
Local Abbreviation output_dir_of wav_path :=
  (PathLib.child output_base_dir (Naming.dir_name (PathLib.stem wav_path))).

(** One iteration never raises: it adds one to [successful] when the
    recording succeeds and one to [failed] otherwise. *)
Lemma process_one_outcome n i wav_path successful failed :
  outcome (process_one w n i wav_path (successful, failed))
  = Ok (if recording_succeeds w wav_path
        then (S successful, failed) else (successful, S failed)).
Proof.
  unfold process_one, recording_succeeds.
  rewrite outcome_emit_bind, outcome_try_except, outcome_emit_bind,
    outcome_lift_bind.
  destruct (mkdir w _) as [[]|e]; [|done].
  rewrite outcome_bind.
  by destruct (outcome (process_audio_file w wav_path _)) as [[|]|e].
Qed.

(** What one iteration leaves in the trace; the counters play no part. *)
Lemma process_one_trace n i wav_path counters :
  trace (process_one w n i wav_path counters)
  = EvBanner i n :: EvMkdir (output_dir_of wav_path)
    :: match mkdir w (output_dir_of wav_path) with
       | Ok _ =>
           trace (process_audio_file w wav_path (output_dir_of wav_path))
           ++ match outcome (process_audio_file w wav_path (output_dir_of wav_path)) with
              | Ok _ => []
              | Raise _ => [EvLogError wav_path]
              end
       | Raise _ => [EvLogError wav_path]
       end.
Proof.
  destruct counters as [successful failed]. unfold process_one.
  rewrite trace_emit_bind, trace_try_except, trace_emit_bind, trace_lift_bind,
    outcome_emit_bind, outcome_lift_bind.
  destruct (mkdir w _) as [[]|e]; [|done].
  rewrite trace_bind, outcome_bind. simpl. f_equal. f_equal.
  destruct (outcome (process_audio_file w wav_path _)) as [ok|e]; simpl.
  - by rewrite !(right_id_L [] (++)).
  - by rewrite (right_id_L [] (++)).
Qed.

Lemma process_one_trace_counters n i wav_path counters :
  trace (process_one w n i wav_path counters)
  = trace (process_one w n i wav_path (0, 0)).
Proof. by rewrite !process_one_trace. Qed.

Lemma batch_loop_cons n i wav_path rest counters :
  batch_loop w n i (wav_path :: rest) counters
  = process_one w n i wav_path counters ≫= batch_loop w n (S i) rest.
Proof. reflexivity. Qed.

Lemma batch_loop_outcome n i wav_files successful failed :
  outcome (batch_loop w n i wav_files (successful, failed))
  = Ok (successful + length (filter (fun p => recording_succeeds w p) wav_files),
        failed + length (filter (fun p => ¬ recording_succeeds w p) wav_files)).
Proof.
  revert i successful failed.
  induction wav_files as [|p rest IH]; intros i successful failed.
  - unfold outcome. simpl. by rewrite !Nat.add_0_r.
  - rewrite batch_loop_cons, outcome_bind, process_one_outcome.
    rewrite !filter_cons.
    destruct (recording_succeeds w p) eqn:Hp; rewrite IH; simpl;
      f_equal; f_equal; lia.
Qed.

Lemma batch_loop_trace n i wav_files counters :
  trace (batch_loop w n i wav_files counters)
  = concat (imap (fun k p => trace (process_one w n (i + k) p (0, 0))) wav_files).
Proof.
  revert i counters.
  induction wav_files as [|p rest IH]; intros i counters; [done|].
  rewrite batch_loop_cons, trace_bind.
  destruct counters as [successful failed].
  rewrite process_one_outcome. lazy beta iota.
  rewrite IH, imap_cons, concat_cons, Nat.add_0_r, process_one_trace_counters.
  f_equal. f_equal. apply imap_ext. intros k q _.
  unfold compose. by rewrite Nat.add_succ_r.
Qed.

Lemma filter_split_length (files : list Path) :
  length (filter (fun p => recording_succeeds w p) files)
  + length (filter (fun p => ¬ recording_succeeds w p) files)
  = length files.
Proof.
  induction files as [|p rest IH]; [done|].
  rewrite !filter_cons.
  destruct (recording_succeeds w p) eqn:Hp; simpl; lia.
Qed.

(** An exception of a stage does not leave [process_audio_file]: once the
    speaker count is resolved, the call returns a boolean. *)
Lemma stages_never_raise audio_path output_dir speaker_count :
  exists ok,
    outcome (try_except (run_stages w audio_path output_dir speaker_count)
               (fun e => emit (EvLogError audio_path);; mret false))
    = Ok ok.
Proof.
  rewrite outcome_try_except.
  destruct (outcome (run_stages _ _ _ _)); by eexists.
Qed.

End BatchFacts.

(** C9: the batch loop never raises.  A stage that raises inside
    [process_audio_file] is caught there: the error is logged and the call
    returns False.  Whatever happens while one recording is processed (its
    directory cannot be created, metadata handling raises before the pipeline
    starts, a stage raises inside it and the call returns False), the
    iteration ends by adding one to [failed], and otherwise one to
    [successful], and the loop goes on: the counters add up to the number of
    recordings, [successful] counts exactly the recordings that succeed on
    their own, and the trace of the batch is the trace of each recording's
    own iteration, one after the other, each starting with its banner. *)
Theorem C9_batch_isolation (w : World) (wav_files : list Path) :
  wav_files <> [] ->
  let run := process_all_files w wav_files in
  let n := length wav_files in
  let output_dir_of := fun p : Path =>
    PathLib.child output_base_dir (Naming.dir_name (PathLib.stem p)) in
  (exists successful failed,
     outcome run = Ok (Some (successful, failed))
     /\ successful
        = length (filter (fun p => Observe.recording_succeeds w p) wav_files)
     /\ failed
        = length (filter (fun p => ¬ Observe.recording_succeeds w p) wav_files)
     /\ successful + failed = n)
  /\ trace run
     = concat (imap (fun k p => trace (process_one w n (S k) p (0, 0))) wav_files)
  /\ (forall k p,
        wav_files !! k = Some p ->
        exists rest,
          trace (process_one w n (S k) p (0, 0))
          = EvBanner (S k) n :: EvMkdir (output_dir_of p) :: rest)
  /\ (forall p output_dir metadata location speaker_count e,
        outcome (load_metadata w p) = Ok (metadata, location) ->
        outcome (resolve_speaker_count metadata) = Ok speaker_count ->
        outcome (run_stages w p output_dir speaker_count) = Raise e ->
        outcome (process_audio_file w p output_dir) = Ok false
        /\ last (trace (process_audio_file w p output_dir))
           = Some (EvLogError p))
  /\ (forall i p successful failed,
        (outcome (process_audio_file w p (output_dir_of p)) = Ok false
         \/ (exists e, outcome (process_audio_file w p (output_dir_of p)) = Raise e)
         \/ (exists e, mkdir w (output_dir_of p) = Raise e)) ->
        Observe.recording_succeeds w p = false
        /\ outcome (process_one w n i p (successful, failed))
           = Ok (successful, S failed))
  /\ (forall i p successful failed,
        mkdir w (output_dir_of p) = Ok tt ->
        outcome (process_audio_file w p (output_dir_of p)) = Ok true ->
        Observe.recording_succeeds w p = true
        /\ outcome (process_one w n i p (successful, failed))
           = Ok (S successful, failed)).
Proof.
  intros Hne run n output_dir_of. subst run.
  assert (Hrun : process_all_files w wav_files
                 = batch_loop w n 1 wav_files (0, 0) ≫= fun c => mret (Some c)).
  { subst n. by destruct wav_files. }
  rewrite Hrun. split_and!.
  - rewrite outcome_bind, batch_loop_outcome. simpl.
    eexists _, _. split_and!; try done. apply filter_split_length.
  - rewrite trace_bind, batch_loop_trace, batch_loop_outcome. simpl.
    by rewrite (right_id_L [] (++)).
  - intros k p _. rewrite process_one_trace. by eexists.
  - intros p output_dir metadata location speaker_count e Hmeta Hcount Hraise.
    unfold process_audio_file.
    rewrite outcome_bind, trace_bind, Hmeta. lazy beta iota.
    rewrite outcome_bind, trace_bind, Hcount.
    rewrite outcome_try_except, trace_try_except, Hraise, trace_emit_bind.
    split; [done|].
    change (EvLogError p :: trace (mret false)) with [EvLogError p].
    by rewrite !(assoc_L (++)), last_snoc.
  - intros i p successful failed Hfail.
    assert (Hnot : Observe.recording_succeeds w p = false).
    { unfold Observe.recording_succeeds. fold (output_dir_of p).
      destruct Hfail as [Hf|[[e He]|[e He]]]; rewrite ?Hf, ?He;
        by destruct (mkdir w (output_dir_of p)). }
    split; [done|]. by rewrite process_one_outcome, Hnot.
  - intros i p successful failed Hmk Htrue.
    assert (Hyes : Observe.recording_succeeds w p = true).
    { unfold Observe.recording_succeeds. fold (output_dir_of p).
      by rewrite Hmk, Htrue. }
    split; [done|]. by rewrite process_one_outcome, Hyes.
Qed.

Lemma C9_batch_isolation_witness :
  let w := Fixtures.second_fails_at_align in
  let files := [Fixtures.first; Fixtures.second; Fixtures.third] in
  (exists successful failed,
     outcome (process_all_files w files) = Ok (Some (successful, failed))
     /\ successful
        = length (filter (fun p => Observe.recording_succeeds w p) files)
     /\ failed
        = length (filter (fun p => ¬ Observe.recording_succeeds w p) files)
     /\ successful + failed = length files)
  /\ outcome (process_audio_file w Fixtures.second
                (PathLib.child output_base_dir
                   (Naming.dir_name (PathLib.stem Fixtures.second))))
     = Ok false.
Proof.
  intros w files.
  destruct (C9_batch_isolation w files ltac:(discriminate))
    as (Hcount & _ & _ & Hcaught & _).
  split; [exact Hcount|].
  apply (Hcaught Fixtures.second _ JNull "" (JInt 2) RuntimeError);
    vm_compute; reflexivity.
Defined.

(** Three recordings, alignment raising for the second: two successes, one
    failure, and the third recording is still written. *)
Example batch_of_three :
  let run := process_all_files Fixtures.second_fails_at_align
               [Fixtures.first; Fixtures.second; Fixtures.third] in
  outcome run = Ok (Some (2, 1))
  /\ EvWrite ["workspace"; "audio"; "audio-only"; "c"; "c.txt"] ∈ trace run
  /\ EvWrite ["workspace"; "audio"; "audio-only"; "b"; "b.txt"] ∉ trace run.
Proof.
  intros run. split; [vm_compute; reflexivity|]. split.
  - apply list_elem_of_In. vm_compute. tauto.
  - intros H%list_elem_of_In. vm_compute in H.
    repeat (destruct H as [H|H]; [discriminate H|]). done.
Qed.

Example stem_of_recording :
  PathLib.stem ["workspace"; "audio"; "AO_REC_Weekly_Sync_20240115_093000.wav"]
  = "AO_REC_Weekly_Sync_20240115_093000".
Proof. reflexivity. Qed.

(** ** What [save_results] writes *)

Section ArtifactFacts.
Import PyStr Conversation Invariants Artifacts.
Context (speaker_mapping : gmap string string).

Lemma foldl_pointwise {A B} (f g : A -> B -> A) (l : list B) (a : A) :
  (forall a b, f a b = g a b) -> foldl f a l = foldl g a l.
Proof.
  intros Hfg. revert a. induction l as [|b l IH]; intros a; [done|].
  simpl. by rewrite Hfg, IH.
Qed.

(** The loop only looks at a segment's mapped speaker and its text. *)
Lemma loop_body_relabelled (f : Segment -> Segment) st segment :
  mapped_speaker speaker_mapping (f segment)
    = mapped_speaker speaker_mapping segment ->
  seg_text (f segment) = seg_text segment ->
  loop_body speaker_mapping st (f segment) = loop_body speaker_mapping st segment.
Proof. intros Hsp Htx. unfold loop_body. by rewrite Hsp, Htx. Qed.

Lemma save_conversation_relabelled (f : Segment -> Segment) segments :
  (forall segment,
     mapped_speaker speaker_mapping (f segment)
       = mapped_speaker speaker_mapping segment
     /\ seg_text (f segment) = seg_text segment) ->
  save_conversation (map f segments) speaker_mapping
    = save_conversation segments speaker_mapping
  /\ save_text_format (map f segments) speaker_mapping
    = save_text_format segments speaker_mapping.
Proof.
  intros Hf. split.
  - unfold save_conversation. f_equal. rewrite foldl_fmap.
    apply foldl_pointwise. intros st segment.
    destruct (Hf segment). by apply loop_body_relabelled.
  - unfold save_text_format, save_text_format_writes.
    rewrite !save_text_format_writes_from, map_map. f_equal. f_equal.
    apply map_ext. intros segment. destruct (Hf segment) as [Hsp Htx].
    unfold text_line. by rewrite Hsp, Htx.
Qed.

End ArtifactFacts.

Section RelabelFacts.
Import PyStr Conversation Invariants Artifacts.

Lemma mapped_speaker_relabelled speaker_mapping segment :
  names_are_not_labels speaker_mapping ->
  forall relabelled,
    save_transcript [segment] speaker_mapping = [relabelled] ->
    mapped_speaker speaker_mapping relabelled
      = mapped_speaker speaker_mapping segment
    /\ seg_text relabelled = seg_text segment.
Proof.
  intros Hnames relabelled [= <-]. unfold mapped_speaker.
  destruct (seg_speaker segment) as [label|] eqn:Hlabel; simpl; [|by rewrite Hlabel].
  split; [|done].
  destruct (speaker_mapping !! label) as [name|] eqn:Hname; simpl.
  - by rewrite (Hnames _ _ Hname).
  - by rewrite Hname.
Qed.

(** When no mapped name is itself a label, relabelling the segments first
    changes nothing for the two later writers: the conversation and the text
    file written by [save_results] are those computed from the segments as
    the gateway returned them. *)
Theorem save_results_single_mapping
    (segments : list Segment) (speaker_mapping : gmap string string) :
  names_are_not_labels speaker_mapping ->
  conversation_turns (save_results_content segments speaker_mapping)
    = save_conversation segments speaker_mapping
  /\ text_file (save_results_content segments speaker_mapping)
    = save_text_format segments speaker_mapping
  /\ map seg_text (transcript (save_results_content segments speaker_mapping))
    = map seg_text segments.
Proof.
  intros Hnames. unfold save_results_content, save_transcript. simpl.
  set (f := fun segment : Segment => match seg_speaker segment with
                           | Some _ => _ | None => _ end).
  assert (Hf : forall segment,
             mapped_speaker speaker_mapping (f segment)
               = mapped_speaker speaker_mapping segment
             /\ seg_text (f segment) = seg_text segment).
  { intros segment.
    by apply (mapped_speaker_relabelled speaker_mapping segment Hnames). }
  destruct (save_conversation_relabelled speaker_mapping f segments Hf) as [-> ->].
  split; [done|]. split; [done|].
  rewrite map_map. apply map_ext. intros segment. apply Hf.
Qed.

Lemma scenario_names_are_not_labels :
  names_are_not_labels Scenario.speaker_map.
Proof.
  intros label name Hl. unfold Scenario.speaker_map in *.
  apply lookup_insert_Some in Hl as [[_ <-]|[_ Hl]]; [by vm_compute|].
  apply lookup_insert_Some in Hl as [[_ <-]|[_ Hl]]; [by vm_compute|].
  by rewrite lookup_empty in Hl.
Qed.

Lemma save_results_single_mapping_witness :
  conversation_turns (save_results_content Scenario.segments Scenario.speaker_map)
    = save_conversation Scenario.segments Scenario.speaker_map
  /\ text_file (save_results_content Scenario.segments Scenario.speaker_map)
    = save_text_format Scenario.segments Scenario.speaker_map
  /\ map seg_text (transcript (save_results_content Scenario.segments
                                 Scenario.speaker_map))
    = map seg_text Scenario.segments.
Proof.
  apply (save_results_single_mapping Scenario.segments Scenario.speaker_map).
  apply scenario_names_are_not_labels.
Defined.

(** With a name that is also a label the second lookup shows: the
    transcript carries the name mapped once, the conversation the name
    mapped twice. *)
Example chained_mapping_is_applied_twice :
  let chained : gmap string string := <["S1" := "S2"]> (<["S2" := "Bob"]> ∅) in
  let segments := [mkSegment (Scenario.q 0) (Scenario.q 1) "Hi" (Some "S1")] in
  map seg_speaker (transcript (save_results_content segments chained)) = [Some "S2"]
  /\ conversation_turns (save_results_content segments chained)
     = [mkTurn "Bob" "Hi"].
Proof. split; vm_compute; reflexivity. Qed.

(** *** The speakers of the turns *)

Lemma squeeze_cons_cons x y rest :
  squeeze (x :: y :: rest)
  = if decide (x = y) then squeeze (y :: rest) else x :: squeeze (y :: rest).
Proof. reflexivity. Qed.

Lemma last_squeeze xs : last (squeeze xs) = last xs.
Proof.
  induction xs as [|x [|y rest] IH]; [done..|].
  rewrite squeeze_cons_cons. case_decide as Hxy.
  - by rewrite IH.
  - by rewrite (last_cons x (squeeze _)), (last_cons x (y :: rest)), IH.
Qed.

Lemma squeeze_snoc xs y :
  squeeze (xs ++ [y])
  = if decide (last xs = Some y) then squeeze xs else squeeze xs ++ [y].
Proof.
  induction xs as [|x [|z rest] IH].
  - done.
  - simpl. repeat case_decide; simplify_eq; done.
  - change ((x :: z :: rest) ++ [y]) with (x :: z :: (rest ++ [y])).
    rewrite !squeeze_cons_cons.
    change (z :: (rest ++ [y])) with ((z :: rest) ++ [y]).
    rewrite IH. rewrite (last_cons x (z :: rest)).
    destruct (last (z :: rest)) as [l|] eqn:Hl; [|by apply last_None in Hl].
    repeat case_decide; simplify_eq; done.
Qed.

(** The speakers held by the loop variables, oldest first. *)
Lemma loop_speakers speaker_mapping segments :
  let st := foldl (loop_body speaker_mapping) loop_init segments in
  map speaker (conversation st) ++ option_list (current_speaker st)
    = squeeze (map (mapped_speaker speaker_mapping) segments)
  /\ current_speaker st = last (map (mapped_speaker speaker_mapping) segments).
Proof.
  induction segments as [|segment segments [IHs IHc]] using rev_ind; [done|].
  rewrite foldl_snoc, map_app. simpl map. rewrite squeeze_snoc, last_snoc.
  rewrite <- IHc, <- IHs.
  destruct (foldl (loop_body speaker_mapping) loop_init segments) as [conv cs ct].
  unfold loop_body. simpl.
  case_decide as Hne1; case_decide as Hne2; simplify_eq; simpl; try done.
  destruct cs as [cs|]; simpl; [|by rewrite !(right_id_L [] (++))].
  by rewrite map_app.
Qed.

Lemma save_conversation_speakers segments speaker_mapping :
  map speaker (save_conversation segments speaker_mapping)
    = squeeze (map (mapped_speaker speaker_mapping) segments).
Proof.
  destruct (loop_speakers speaker_mapping segments) as [Hs Hc].
  destruct (loop_invariant speaker_mapping segments) as (Hbuf & _).
  rewrite <- Hs. unfold save_conversation, loop_finish.
  unfold buffer_ok in Hbuf.
  destruct (foldl _ _ _) as [conv [cs|] ct]; simpl in *.
  - destruct Hbuf as [t ->].
    rewrite decide_True by apply append_blank_nonempty.
    by rewrite map_app.
  - by rewrite (right_id_L [] (++)).
Qed.

Lemma save_conversation_words segments speaker_mapping :
  split_ws (join " " (map text (save_conversation segments speaker_mapping)))
  = split_ws (join " " (map (fun s => strip (seg_text s)) segments)).
Proof.
  destruct (loop_invariant speaker_mapping segments) as (Hbuf & _ & Hw & _).
  destruct (loop_finish_words _ Hbuf) as [Hfw _].
  rewrite !split_ws_join. unfold save_conversation.
  rewrite !map_map, Hfw, Hw. f_equal.
  apply map_ext. intros s. by rewrite split_ws_strip.
Qed.

Lemma length_squeeze xs : length (squeeze xs) <= length xs.
Proof.
  induction xs as [|x [|y rest] IH]; [done..|].
  rewrite squeeze_cons_cons. case_decide; simpl in *; lia.
Qed.

(** The speakers of the turns are the mapped speakers of the segments with
    every run of equal neighbours cut down to one; in particular there is a
    turn exactly when there is a segment. *)
Theorem turn_speakers_are_squeezed
    (segments : list Segment) (speaker_mapping : gmap string string) :
  map speaker (save_conversation segments speaker_mapping)
    = squeeze (map (mapped_speaker speaker_mapping) segments)
  /\ length (save_conversation segments speaker_mapping) <= length segments
  /\ (save_conversation segments speaker_mapping = [] <-> segments = []).
Proof.
  pose proof (save_conversation_speakers segments speaker_mapping) as Hsq.
  split; [done|]. split.
  - rewrite <- (length_map speaker), Hsq,
      <- (length_map (mapped_speaker speaker_mapping) segments).
    apply length_squeeze.
  - split.
    + intros Hnil. rewrite Hnil in Hsq. simpl in Hsq.
      destruct segments as [|s segments]; [done|]. exfalso.
      assert (Hl : last (squeeze (map (mapped_speaker speaker_mapping) (s :: segments)))
                   = None) by by rewrite <- Hsq.
      rewrite last_squeeze in Hl. simpl map in Hl.
      apply last_None in Hl. done.
    + by intros ->.
Qed.

End RelabelFacts.

(** ** [directory_transcribe.py]: results *)

Section TranscribeFacts.
Import PyStr.

(** The mapping-free [save_conversation] is the mapped one under an empty
    mapping; so its turns too alternate in speaker, keep every word, and
    carry the segments' labels with repeats squeezed out. *)
Theorem unmapped_save_conversation (segments : list Segment) :
  Transcribe.save_conversation segments
    = Conversation.save_conversation segments ∅
  /\ map speaker (Transcribe.save_conversation segments)
     = Artifacts.squeeze
         (map (fun s => default "Unknown" (seg_speaker s)) segments)
  /\ split_ws (join " " (map text (Transcribe.save_conversation segments)))
     = split_ws (join " " (map (fun s => strip (seg_text s)) segments)).
Proof.
  assert (Heq : Transcribe.save_conversation segments
                = Conversation.save_conversation segments ∅).
  { unfold Transcribe.save_conversation, Conversation.save_conversation.
    apply (f_equal Conversation.loop_finish).
    apply foldl_pointwise. intros st segment.
    unfold Transcribe.loop_body, Conversation.loop_body,
      Conversation.mapped_speaker.
    by rewrite lookup_empty. }
  split; [done|]. rewrite Heq. split.
  - rewrite save_conversation_speakers.
    apply (f_equal Artifacts.squeeze), map_ext. intros s.
    unfold Conversation.mapped_speaker. by rewrite lookup_empty.
  - apply save_conversation_words.
Qed.

End TranscribeFacts.

Lemma same_speaker_run_merges_witness :
  Conversation.save_conversation
    [ mkSegment (Scenario.q 0) (Scenario.q 1) " Hi " (Some "S1");
      mkSegment (Scenario.q 1) (Scenario.q 2) "there" (Some "S1") ]
    Scenario.speaker_map
  = [mkTurn "Alice" (PyStr.strip (PyStr.join " " ["Hi"; "there"]))].
Proof.
  apply (same_speaker_run_merges Scenario.speaker_map
           (mkSegment (Scenario.q 0) (Scenario.q 1) " Hi " (Some "S1"))
           [mkSegment (Scenario.q 1) (Scenario.q 2) "there" (Some "S1")]).
  repeat constructor.
Defined.

Lemma speaker_change_starts_turn_witness :
  Conversation.save_conversation
    (([mkSegment (Scenario.q 0) (Scenario.q 1) "Hi" (Some "S1")]
      ++ [mkSegment (Scenario.q 1) (Scenario.q 2) "there" (Some "S1")])
     ++ mkSegment (Scenario.q 2) (Scenario.q 3) "Bye" (Some "S2") :: [])
    Scenario.speaker_map
  = Conversation.save_conversation
      ([mkSegment (Scenario.q 0) (Scenario.q 1) "Hi" (Some "S1")]
       ++ [mkSegment (Scenario.q 1) (Scenario.q 2) "there" (Some "S1")])
      Scenario.speaker_map
    ++ Conversation.save_conversation
         [mkSegment (Scenario.q 2) (Scenario.q 3) "Bye" (Some "S2")]
         Scenario.speaker_map.
Proof.
  apply (speaker_change_starts_turn Scenario.speaker_map).
  vm_compute. discriminate.
Defined.

Section SpeakerCountFacts.
Import Transcribe.

Lemma get_speaker_count_skips skipped replies :
  Forall rejected skipped ->
  get_speaker_count (skipped ++ replies) = get_speaker_count replies.
Proof.
  induction 1 as [|r skipped Hr _ IH]; [done|].
  simpl. destruct r as [|count]; [done|]. simpl in Hr.
  destruct (Z.leb_spec 1 count), (Z.leb_spec count 10); simpl; try done; lia.
Qed.

(** [get_speaker_count] returns [count], leaving [rest] unread, exactly when
    the replies are: some rejected ones (not a number, or a number outside
    1..10), then [count] with 1 <= count <= 10, then [rest].  So every count
    it returns lies in 1..10, it is the first acceptable reply, and an
    acceptable reply is all it takes for the call to return. *)
Theorem get_speaker_count_first_acceptable
    (replies : list reply) (count : Z) (rest : list reply) :
  get_speaker_count replies = Some (count, rest)
  <-> exists skipped,
        replies = skipped ++ Number count :: rest
        /\ Forall rejected skipped
        /\ (1 <= count <= 10)%Z.
Proof.
  split.
  - revert count rest. induction replies as [|r replies IH]; intros count rest H;
      [done|].
    simpl in H. destruct r as [|c].
    + destruct (IH _ _ H) as (skipped & -> & Hs & Hc).
      exists (NotANumber :: skipped). split; [done|]. split; [|done].
      by constructor.
    + destruct ((1 <=? c) && (c <=? 10))%Z eqn:Hrange.
      * injection H as <- <-. exists [].
        apply andb_true_iff in Hrange as [?%Z.leb_le ?%Z.leb_le].
        split; [done|]. split; [constructor | lia].
      * destruct (IH _ _ H) as (skipped & -> & Hs & Hc).
        exists (Number c :: skipped). split; [done|]. split; [|done].
        constructor; [|done]. simpl.
        apply andb_false_iff in Hrange as [?%Z.leb_gt | ?%Z.leb_gt]; lia.
  - intros (skipped & -> & Hs & Hc).
    rewrite get_speaker_count_skips by done. simpl.
    destruct (Z.leb_spec 1 count), (Z.leb_spec count 10); simpl; try done; lia.
Qed.

Lemma get_speaker_count_first_acceptable_witness :
  get_speaker_count [NotANumber; Number 0; Number 11; Number 3; Number 5]
  = Some (3%Z, [Number 5]).
Proof.
  apply (get_speaker_count_first_acceptable
           [NotANumber; Number 0; Number 11; Number 3; Number 5] 3 [Number 5]).
  exists [NotANumber; Number 0; Number 11].
  split; [reflexivity|]. split; [|lia].
  repeat constructor; simpl; lia.
Defined.

End SpeakerCountFacts.

(** ** Paths *)

Section PathFacts.
Import PathLib Shape.
Local Arguments String.append !_ _ / : simpl nomatch.

Lemma length_append a b :
  String.length (a +:+ b) = String.length a + String.length b.
Proof. induction a as [|c a IH]; simpl; [done | by rewrite IH]. Qed.

Lemma take_append a b : PyStr.take (String.length a) (a +:+ b) = a.
Proof. induction a as [|c a IH]; simpl; [by destruct b | by rewrite IH]. Qed.

Lemma rfind_absent c s : has_char c s = false -> rfind c s = None.
Proof.
  induction s as [|a s IH]; [done|]. simpl.
  intros [Ha Hs]%orb_false_iff. rewrite (IH Hs).
  apply bool_decide_eq_false in Ha. by rewrite decide_False.
Qed.

(** The last occurrence of [c] in [a c x], when [x] has none. *)
Lemma rfind_last c a x :
  has_char c x = false -> rfind c (a +:+ String c x) = Some (String.length a).
Proof.
  intros Hx. induction a as [|b a IH]; simpl.
  - by rewrite (rfind_absent _ _ Hx), decide_True.
  - by rewrite IH.
Qed.

Lemma parent_child dir component : parent (child dir component) = dir.
Proof. apply removelast_last. Qed.

Lemma name_child dir component : name (child dir component) = component.
Proof. unfold name, child. by rewrite last_snoc. Qed.

(** The stem of [a.x] is [a], for non-empty [a] and non-empty dot-free [x]. *)
Lemma stem_dotted dir a x :
  a <> "" -> x <> "" -> has_char "." x = false ->
  stem (child dir (a +:+ "." +:+ x)) = a.
Proof.
  intros Ha Hx Hfree. unfold stem. rewrite name_child.
  change ("." +:+ x) with (String "." x).
  rewrite (rfind_last _ _ _ Hfree), length_append. simpl String.length.
  assert (0 < String.length a) by (destruct a; [done | simpl; lia]).
  assert (0 < String.length x) by (destruct x; [done | simpl; lia]).
  destruct (Nat.ltb_spec 0 (String.length a)); [|lia].
  destruct (Nat.ltb_spec (String.length a)
              (String.length a + S (String.length x) - 1)); [|lia].
  simpl. apply take_append.
Qed.

(** A name without a dot is its own stem. *)
Lemma stem_plain dir b : has_char "." b = false -> stem (child dir b) = b.
Proof.
  intros Hfree. unfold stem. rewrite name_child.
  by rewrite (rfind_absent _ _ Hfree).
Qed.

End PathFacts.

(** Where [directory_transcribe.process_audio_file] puts its two files.
    For [base.wav] with a dot-free [base] they are [base.json] and
    [base_conversation.json] next to the recording.  For [base.inner.wav]
    the second [with_suffix] also drops [.inner]: the transcript goes to
    [base.json], whatever [inner] is, while the conversation goes to
    [base.inner_conversation.json]. *)
Theorem transcribe_output_paths (dir : Path) (base inner : string) :
  base <> "" -> inner <> "" -> Shape.has_char "." inner = false ->
  (Shape.has_char "." base = false ->
   Transcribe.transcript_json_path (PathLib.child dir (base +:+ ".wav"))
     = PathLib.child dir (base +:+ ".json")
   /\ Transcribe.conversation_json_path (PathLib.child dir (base +:+ ".wav"))
     = PathLib.child dir (base +:+ "_conversation.json"))
  /\ Transcribe.transcript_json_path
       (PathLib.child dir ((base +:+ "." +:+ inner) +:+ ".wav"))
     = PathLib.child dir (base +:+ ".json")
  /\ Transcribe.conversation_json_path
       (PathLib.child dir ((base +:+ "." +:+ inner) +:+ ".wav"))
     = PathLib.child dir ((base +:+ "." +:+ inner) +:+ "_conversation.json").
Proof.
  intros Hbase Hinner Hfree.
  assert (Hwav : forall a, a <> "" ->
            Transcribe.with_suffix (PathLib.child dir (a +:+ ".wav")) ""
            = PathLib.child dir a).
  { intros a Ha. unfold Transcribe.with_suffix.
    rewrite parent_child. change (a +:+ ".wav") with (a +:+ "." +:+ "wav").
    rewrite stem_dotted by done. by rewrite append_nil_r. }
  assert (Hdotted : base +:+ "." +:+ inner <> "") by by destruct base.
  unfold Transcribe.transcript_json_path, Transcribe.conversation_json_path.
  rewrite !Hwav by done. split_and!.
  - intros Hplain. unfold Transcribe.with_suffix.
    by rewrite !parent_child, name_child, stem_plain.
  - unfold Transcribe.with_suffix. by rewrite parent_child, stem_dotted.
  - by rewrite parent_child, name_child.
Qed.

Lemma transcribe_output_paths_witness :
  Transcribe.transcript_json_path
    (PathLib.child ["data"] (("meeting" +:+ "." +:+ "v2") +:+ ".wav"))
  = PathLib.child ["data"] ("meeting" +:+ ".json").
Proof.
  destruct (transcribe_output_paths ["data"] "meeting" "v2") as (_ & H & _);
    [discriminate | discriminate | reflexivity | exact H].
Defined.

(** ** Naming scheme: structured stems *)

Section StemFacts.
Import PyStr Naming Shape.
Local Arguments String.append !_ _ / : simpl nomatch.


Lemma split_plain sep a : has_char sep a = false -> split sep a = [a].
Proof.
  induction a as [|c a IH]; [done|]. simpl.
  intros [Hc Ha]%orb_false_iff. apply bool_decide_eq_false in Hc.
  rewrite decide_False by done. by rewrite (IH Ha).
Qed.

Lemma split_at_separator sep a b :
  has_char sep a = false ->
  split sep (a +:+ String sep b) = a :: split sep b.
Proof.
  induction a as [|c a IH]; simpl.
  - intros _. by rewrite decide_True.
  - intros [Hc Ha]%orb_false_iff. apply bool_decide_eq_false in Hc.
    rewrite decide_False by done. by rewrite (IH Ha).
Qed.

Lemma join_cons_cons sep x y parts :
  join sep (x :: y :: parts) = x +:+ sep +:+ join sep (y :: parts).
Proof. reflexivity. Qed.

(** Splitting undoes joining, when no part contains the separator. *)
Lemma split_join sep parts :
  parts <> [] ->
  Forall (fun p => has_char sep p = false) parts ->
  split sep (join (String sep "") parts) = parts.
Proof.
  intros Hne Hfree. induction Hfree as [|x parts Hx Hfree IH]; [done|].
  destruct parts as [|y parts]; [by apply split_plain|].
  rewrite join_cons_cons. change (String sep "" +:+ ?s) with (String sep s).
  rewrite split_at_separator by done. by rewrite IH.
Qed.


Lemma event_parts_structured (m1 m2 date time : string) title :
  event_parts (m1 :: m2 :: title ++ [date; time]) = title.
Proof.
  unfold event_parts. simpl length. rewrite length_app. simpl length.
  replace (S (S (length title + 2)) - 2) with (length (m1 :: m2 :: title))
    by (simpl; lia).
  change (m1 :: m2 :: title ++ [date; time])
    with ((m1 :: m2 :: title) ++ [date; time]).
  by rewrite take_app_length.
Qed.

Lemma date_part_structured (m1 m2 date time : string) title :
  date_part (m1 :: m2 :: title ++ [date; time]) = date.
Proof.
  unfold date_part. simpl length. rewrite length_app. simpl length.
  replace (S (S (length title + 2)) - 2) with (length (m1 :: m2 :: title) + 0)
    by (simpl; lia).
  change (m1 :: m2 :: title ++ [date; time])
    with ((m1 :: m2 :: title) ++ [date; time]).
  rewrite nth_lookup, lookup_app_r by lia.
  replace (length (m1 :: m2 :: title) + 0 - length (m1 :: m2 :: title)) with 0
    by lia.
  done.
Qed.

End StemFacts.

(** A stem written as two markers, a title of underscore-free tokens, a date
    and a time, all joined by underscores: with at least two title tokens
    the event is (title tokens joined by underscores, date with two hyphens
    put in) and the directory is named title, underscore, hyphenated date;
    with fewer title tokens no event is parsed and the directory is named as
    the stem. *)
Theorem naming_of_structured_stems
    (m1 m2 date time : string) (title : list string) :
  Forall (fun p => Shape.has_char "_" p = false)
         (m1 :: m2 :: title ++ [date; time]) ->
  let stem := PyStr.join "_" (m1 :: m2 :: title ++ [date; time]) in
  (2 <= length title ->
   Naming.parse_event stem
     = Some (PyStr.join "_" title, Naming.formatted_date date)
   /\ Naming.dir_name stem
     = PyStr.join "_" title +:+ "_" +:+ Naming.formatted_date date)
  /\ (length title < 2 ->
      Naming.parse_event stem = None /\ Naming.dir_name stem = stem).
Proof.
  intros Hfree stem.
  assert (Hsplit : PyStr.split "_" stem = m1 :: m2 :: title ++ [date; time])
    by by apply split_join.
  assert (Hlen : length (PyStr.split "_" stem) = 4 + length title).
  { rewrite Hsplit. simpl. rewrite length_app. simpl. lia. }
  unfold Naming.parse_event, Naming.dir_name.
  split; intros Htitle.
  - destruct (Nat.leb_spec 6 (length (PyStr.split "_" stem))); [|lia].
    by rewrite Hsplit, event_parts_structured, date_part_structured.
  - by destruct (Nat.leb_spec 6 (length (PyStr.split "_" stem))); [lia|].
Qed.

Lemma naming_of_structured_stems_witness :
  Naming.parse_event (PyStr.join "_" ("AO" :: "REC" :: ["Weekly"; "Sync"] ++ ["20240115"; "093000"]))
    = Some (PyStr.join "_" ["Weekly"; "Sync"], Naming.formatted_date "20240115")
  /\ Naming.dir_name (PyStr.join "_" ("AO" :: "REC" :: ["Weekly"; "Sync"] ++ ["20240115"; "093000"]))
    = PyStr.join "_" ["Weekly"; "Sync"] +:+ "_" +:+ Naming.formatted_date "20240115".
Proof.
  destruct (naming_of_structured_stems "AO" "REC" "20240115" "093000"
              ["Weekly"; "Sync"]) as [H _].
  - repeat constructor.
  - apply H. simpl. lia.
Defined.

Section StemLengths.
Import PyStr Naming Shape.
Local Arguments String.append !_ _ / : simpl nomatch.









End StemLengths.



(** ** Metadata resolution: what is returned *)

Section MetadataResults.
Import Observe.
Context (w : World).

Lemma hit_is_record st v :
  examine st = Hit v ->
  exists items,
    v = JObj items /\ st = Parsed (JObj items)
    /\ Py.has_key "speaker_count" items = true.
Proof.
  intros Hex. destruct (examine_hit _ _ Hex) as [-> Hvalid].
  destruct v; try done. by eexists.
Qed.

Lemma search_locations_result wav_file locations metadata location_str :
  outcome (search_locations w wav_file locations) = Ok (metadata, location_str) ->
  (metadata = JNull /\ location_str = "")
  \/ exists items location desc,
       (location, desc) ∈ locations
       /\ fs w location = Parsed (JObj items)
       /\ Py.has_key "speaker_count" items = true
       /\ metadata = JObj items
       /\ location_str = PathLib.to_str location.
Proof.
  induction locations as [|[location desc] rest IH].
  - intros [= <- <-]. by left.
  - rewrite search_locations_cons.
    destruct (examine (fs w location)) as [v| |e] eqn:Hex; unfold outcome; simpl.
    + intros [= <- <-]. right.
      destruct (hit_is_record _ _ Hex) as (items & -> & Hfs & Hkey).
      exists items, location, desc. split_and!; try done. apply list_elem_of_here.
    + intros H. destruct (IH H) as [?|(items & l & d & Hin & ?)]; [by left|].
      right. exists items, l, d. split; [by apply list_elem_of_further | done].
    + done.
Qed.

End MetadataResults.

(** Whatever [load_metadata] returns is either (None, "") or a JSON object
    that has the key [speaker_count], read from one of the three candidate
    files, together with that file's path; a list or a string that merely
    contains "speaker_count" is never returned. *)
Theorem load_metadata_returns_record
    (w : World) (wav_file : Path) (metadata : json) (location_str : string) :
  outcome (load_metadata w wav_file) = Ok (metadata, location_str) ->
  (metadata = JNull /\ location_str = "")
  \/ exists items location desc,
       (location, desc) ∈ metadata_locations wav_file
       /\ fs w location = Parsed (JObj items)
       /\ Py.has_key "speaker_count" items = true
       /\ metadata = JObj items
       /\ location_str = PathLib.to_str location.
Proof.
  rewrite load_metadata_outcome.
  destruct (outcome (search_locations w wav_file (metadata_locations wav_file)))
    as [r|e] eqn:Hsearch.
  - intros [= ->]. by apply (search_locations_result w wav_file _ _ _ Hsearch).
  - intros [= <- <-]. by left.
Qed.

Lemma load_metadata_returns_record_witness :
  (Fixtures.three_speakers = JNull /\ "/data/rec_metadata.json" = "")
  \/ exists items location desc,
       (location, desc) ∈ metadata_locations Fixtures.recording
       /\ fs (Fixtures.happy Fixtures.both_sidecars) location = Parsed (JObj items)
       /\ Py.has_key "speaker_count" items = true
       /\ Fixtures.three_speakers = JObj items
       /\ "/data/rec_metadata.json" = PathLib.to_str location.
Proof.
  apply (load_metadata_returns_record (Fixtures.happy Fixtures.both_sidecars)
           Fixtures.recording).
  vm_compute. reflexivity.
Defined.

Section Version4Facts.
Import Observe Shape.
Context (w : World).

Lemma choose_sidecar_v4_spec wav_file :
  outcome (choose_sidecar_v4 w wav_file) = Ok (chosen_sidecar_v4 w wav_file)
  /\ Forall not_open (trace (choose_sidecar_v4 w wav_file)).
Proof.
  unfold choose_sidecar_v4, chosen_sidecar_v4.
  destruct (file_exists (fs w _)); split; try done; by repeat constructor.
Qed.

Lemma read_sidecar_v4_spec wav_file f :
  match examine (fs w f) with
  | Hit v => outcome (read_sidecar_v4 w wav_file f) = Ok v
  | Miss => outcome (read_sidecar_v4 w wav_file f) = Ok JNull
  | Abort e => outcome (read_sidecar_v4 w wav_file f) = Raise e
  end
  /\ forall location,
       EvOpen location ∈ trace (read_sidecar_v4 w wav_file f) -> location = f.
Proof.
  unfold read_sidecar_v4, examine.
  assert (Hone : forall (l : Path) tail,
            Forall not_open tail ->
            EvOpen l ∈ EvExists f :: EvOpen f :: tail -> l = f).
  { intros l tail Htail Hl.
    apply elem_of_cons in Hl as [[=]|Hl].
    apply elem_of_cons in Hl as [[=]|Hl]; [done|].
    by destruct (proj1 (Forall_forall _ _) Htail _ Hl). }
  destruct (fs w f) as [| | |v]; run_M.
  - split; [done|]. intros l Hl.
    apply elem_of_cons in Hl as [[=]|[=]%list_elem_of_singleton].
  - split; [done|]. intros l. by apply Hone.
  - split; [done|]. intros l. by apply Hone.
  - destruct (Py.contains "speaker_count" v) as [[|]|e]; run_M.
    + destruct (Py.getitem v "speaker_count"); run_M;
        (split; [done|]); intros l; by apply Hone.
    + split; [done|]. intros l. apply Hone. by repeat constructor.
    + split; [done|]. intros l. by apply Hone.
Qed.

End Version4Facts.

(** The earlier resolver never raises, and what it returns is decided by the
    one file it selects: the sidecar beside the recording if that exists,
    else the sidecar in [output_base_dir / stem] if that directory exists.
    It returns that file's record when the file is a valid record, and None
    in every other case; no other file is read. *)
Theorem load_metadata_v4_result (w : World) (wav_file : Path) :
  outcome (load_metadata_v4 w wav_file)
  = Ok (match Observe.examine (fs w (chosen_sidecar_v4 w wav_file)) with
        | Observe.Hit v => v
        | _ => JNull
        end)
  /\ forall location,
       EvOpen location ∈ trace (load_metadata_v4 w wav_file) ->
       location = chosen_sidecar_v4 w wav_file.
Proof.
  destruct (choose_sidecar_v4_spec w wav_file) as [Hchoose Hquiet].
  destruct (read_sidecar_v4_spec w wav_file (chosen_sidecar_v4 w wav_file))
    as [Hread Hopen].
  unfold load_metadata_v4, load_metadata_v4_body. split.
  - rewrite outcome_try_except, outcome_bind, Hchoose.
    destruct (Observe.examine _); by rewrite Hread.
  - intros location. rewrite trace_try_except, trace_bind, Hchoose.
    intros Hl. apply elem_of_app in Hl as [Hl|Hl].
    + apply elem_of_app in Hl as [Hl|Hl]; [|by apply Hopen].
      by destruct (proj1 (Forall_forall _ _) Hquiet _ Hl).
    + destruct (outcome _) in Hl; [by apply elem_of_nil in Hl|].
      by apply list_elem_of_singleton in Hl.
Qed.

Lemma load_metadata_v4_result_witness :
  Fixtures.parent_sidecar
  = chosen_sidecar_v4 (Fixtures.happy Fixtures.both_sidecars) Fixtures.recording.
Proof.
  destruct (load_metadata_v4_result (Fixtures.happy Fixtures.both_sidecars)
              Fixtures.recording) as [_ Hopen].
  apply Hopen. vm_compute.
  do 2 apply list_elem_of_further. apply list_elem_of_here.
Defined.

(** ** The per-recording pipeline: the shape of a run *)

Section ShapeFacts.
Import Observe Shape.
Context (w : World).

(** Peels emitted events off the front of a program. *)
Ltac step_emit :=
  repeat (first [rewrite trace_emit_bind | rewrite outcome_emit_bind]; cbv beta).

(** Exposes the outcome of the gateway call a program starts with. *)
Ltac step_lift :=
  rewrite trace_lift_bind, outcome_lift_bind; cbv beta.

Lemma trace_print_attendees attendees : trace (print_attendees attendees) = [].
Proof.
  induction attendees as [|a rest IH]; [done|].
  change (print_attendees (a :: rest))
    with (lift (Py.getitem a "name") ≫= fun _ => print_attendees rest).
  rewrite trace_lift_bind. by destruct (Py.getitem a "name").
Qed.

Lemma trace_fill_speaker_mapping i attendees speaker_mapping :
  trace (fill_speaker_mapping i attendees speaker_mapping) = [].
Proof.
  revert i speaker_mapping.
  induction attendees as [|a rest IH]; intros i speaker_mapping; [done|].
  change (fill_speaker_mapping i (a :: rest) speaker_mapping)
    with (lift (Py.getitem a "name") ≫= fun name =>
          fill_speaker_mapping (S i) rest
            (<["SPEAKER_" +:+ pretty i := name]> speaker_mapping)).
  rewrite trace_lift_bind. by destruct (Py.getitem a "name").
Qed.

Lemma load_metadata_lookup_events wav_file :
  Forall lookup_event (trace (load_metadata w wav_file)).
Proof.
  unfold load_metadata. apply Forall_trace_try_except; [|intros e; trace_all].
  induction (metadata_locations wav_file) as [|[location desc] rest IH].
  - simpl. trace_all.
  - rewrite search_locations_cons.
    assert (Forall lookup_event (visit_trace (fs w location) location)).
    { unfold visit_trace. destruct (file_exists _); by repeat constructor. }
    destruct (examine _); unfold trace; simpl; [done| |done].
    by apply Forall_app.
Qed.

Lemma resolve_speaker_count_lookup_events metadata :
  Forall lookup_event (trace (resolve_speaker_count metadata)).
Proof.
  unfold resolve_speaker_count. trace_all.
  rewrite trace_print_attendees. constructor.
Qed.

Lemma lookup_events_silent tr :
  Forall lookup_event tr -> calls tr = [] /\ written tr = [].
Proof.
  induction 1 as [|e tr He _ [IHc IHw]]; [done|].
  destruct e; simpl in *; try done.
Qed.

Lemma trace_write_artifact f : trace (write_artifact w f) = [EvWrite f].
Proof. unfold write_artifact. by rewrite trace_emit_bind. Qed.

Lemma outcome_write_artifact f : outcome (write_artifact w f) = open_write w f.
Proof. unfold write_artifact. by rewrite outcome_emit_bind. Qed.

(** The three writers, one after the other. *)
Lemma three_writes_shape audio_path output_dir :
  let base_name := PathLib.stem audio_path in
  let run :=
    write_artifact w (PathLib.child output_dir (base_name +:+ ".json"));;
    write_artifact w (PathLib.child output_dir (base_name +:+ "_conversation.json"));;
    write_artifact w (PathLib.child output_dir (base_name +:+ ".txt")) in
  (outcome run = Ok tt /\ trace run = artifact_writes audio_path output_dir)
  \/ exists e j,
       outcome run = Raise e /\ j <= 3
       /\ trace run = take j (artifact_writes audio_path output_dir).
Proof.
  intros base_name run. subst run.
  rewrite !trace_bind, !outcome_bind, !trace_write_artifact,
    !outcome_write_artifact.
  destruct (open_write w _) as [[]|e];
    [|right; exists e, 1; split_and!; [done | lia | done]].
  destruct (open_write w _) as [[]|e];
    [|right; exists e, 2; split_and!; [done | lia | done]].
  destruct (open_write w _) as [[]|e];
    [by left | right; exists e, 3; split_and!; [done | lia | done]].
Qed.

(** A step that emits nothing passes the shape of what follows through. *)
Lemma silent_step {A B} (m : M A) (f : A -> M B) (P : M B -> Prop) :
  trace m = [] ->
  (forall a, P (f a)) ->
  (forall e, P ([], Raise e)) ->
  P (m ≫= f).
Proof.
  intros Ht Hok Hraise. destruct m as [tr [a|e]]; simpl in Ht; subst tr.
  - specialize (Hok a). unfold mbind, M_bind. simpl.
    by destruct (f a).
  - apply Hraise.
Qed.

(** [save_results] opens its three files in order and stops at the first
    failure; building the speaker mapping opens nothing. *)
Lemma save_results_shape result audio_path output_dir metadata :
  let run := save_results w result audio_path output_dir metadata in
  (outcome run = Ok tt /\ trace run = artifact_writes audio_path output_dir)
  \/ exists e j,
       outcome run = Raise e /\ j <= 3
       /\ trace run = take j (artifact_writes audio_path output_dir).
Proof.
  intros run. subst run. unfold save_results.
  assert (Hraise : forall e : exn,
            (outcome (([], Raise e) : M unit) = Ok tt
             /\ trace (([], Raise e) : M unit)
                = artifact_writes audio_path output_dir)
            \/ exists e' j,
                 outcome (([], Raise e) : M unit) = Raise e' /\ j <= 3
                 /\ trace (([], Raise e) : M unit)
                    = take j (artifact_writes audio_path output_dir)).
  { intros e. right. exists e, 0. split_and!; [done | lia | done]. }
  apply (silent_step _ _ (fun run =>
           (outcome run = Ok tt
            /\ trace run = artifact_writes audio_path output_dir)
           \/ exists e j, outcome run = Raise e /\ j <= 3
                /\ trace run = take j (artifact_writes audio_path output_dir)));
    [by destruct (Py.truthy metadata) | | exact Hraise].
  intros has.
  apply (silent_step _ _ (fun run =>
           (outcome run = Ok tt
            /\ trace run = artifact_writes audio_path output_dir)
           \/ exists e j, outcome run = Raise e /\ j <= 3
                /\ trace run = take j (artifact_writes audio_path output_dir)));
    [ | | exact Hraise].
  - destruct has; [|done]. rewrite trace_lift_bind.
    destruct (Py.getitem metadata "attendees"); [|done].
    rewrite trace_lift_bind. destruct (Py.iter _); [|done].
    apply trace_fill_speaker_mapping.
  - intros mapping. apply three_writes_shape.
Qed.

Lemma unfolds_emit {A} e script writes (f : unit -> M A) good :
  unfolds script writes (f tt) good ->
  unfolds (e :: script) writes (emit e ≫= f) good.
Proof.
  intros (k & j & Hk & Hj & Hjk & Ht & Ho).
  exists (S k), j. rewrite trace_emit_bind, outcome_emit_bind, Ht. simpl.
  split_and!; try done; try lia.
  destruct Ho as [(a & ? & ? & ? & ?)|?]; [left|by right].
  exists a. split_and!; try done. lia.
Qed.

Lemma unfolds_lift {A B} script writes (r : result A) (f : A -> M B) good :
  (forall a, unfolds script writes (f a) good) ->
  unfolds script writes (lift r ≫= f) good.
Proof.
  intros Hf. unfold unfolds. rewrite trace_lift_bind, outcome_lift_bind.
  destruct r as [a|e]; [apply Hf|].
  exists 0, 0.
  split_and!; try done; try lia; first [by left | right; by eexists].
Qed.

(** The [try] body either runs the whole script and opens the three files,
    returning True, or raises after a front part of the script, or after the
    whole script and a front part of the three files. *)
Lemma run_stages_shape audio_path output_dir speaker_count :
  unfolds (stage_script speaker_count) (artifact_writes audio_path output_dir)
          (run_stages w audio_path output_dir speaker_count)
          (fun ok => ok = true).
Proof.
  unfold run_stages, stage_script.
  repeat first [ apply unfolds_emit | apply unfolds_lift; intros ? ].
  unfold unfolds. rewrite trace_bind, outcome_bind.
  match goal with
  | |- context [save_results w ?r ?p ?o ?m] =>
      destruct (save_results_shape r p o m)
        as [[Ho Ht]|(e & j & Ho & Hj & Ht)]; rewrite Ho, Ht
  end.
  - exists 0, 3. split_and!; try done; try (simpl; lia).
    all: first [by right | left; by exists true].
  - exists 0, j. split_and!; try done; try (simpl; lia).
    all: first [by right | by rewrite (right_id_L [] (++)) | right; by eexists].
Qed.

End ShapeFacts.

Section RunFacts.
Import Observe Shape.
Context (w : World).

Lemma calls_app a b : calls (a ++ b) = calls a ++ calls b.
Proof. apply omap_app. Qed.

Lemma written_app a b : written (a ++ b) = written a ++ written b.
Proof. apply omap_app. Qed.

(** A run of [process_audio_file], cut into its four parts: metadata
    lookup, a front part of the stage script, a front part of the three
    files, and the error log line of the [except] clause. *)
Local Ltac close_shape :=
  first [ done | lia | by apply Forall_app_2
        | by (simpl; rewrite ?(right_id_L [] (++)), <- ?(assoc_L (++))) ].

Lemma process_audio_file_shape audio_path output_dir :
  let run := process_audio_file w audio_path output_dir in
  exists pre speaker_count k j tail,
    Forall lookup_event pre
    /\ k <= 13 /\ j <= 3 /\ (j = 0 \/ k = 13)
    /\ trace run = pre ++ take k (stage_script speaker_count)
                   ++ take j (artifact_writes audio_path output_dir) ++ tail
    /\ ((outcome run = Ok true /\ k = 13 /\ j = 3 /\ tail = [])
        \/ (outcome run = Ok false /\ tail = [EvLogError audio_path])
        \/ (exists e, outcome run = Raise e /\ k = 0 /\ j = 0 /\ tail = [])).
Proof.
  intros run. subst run. unfold process_audio_file.
  pose proof (load_metadata_lookup_events w audio_path) as Hmeta.
  rewrite trace_bind, outcome_bind.
  destruct (outcome (load_metadata w audio_path)) as [[metadata location]|e].
  2:{ exists (trace (load_metadata w audio_path)), JNull, 0, 0, [].
      split_and!; try close_shape.
      right. right. by exists e. }
  pose proof (resolve_speaker_count_lookup_events metadata) as Hres.
  rewrite trace_bind, outcome_bind.
  destruct (outcome (resolve_speaker_count metadata)) as [speaker_count|e].
  2:{ exists (trace (load_metadata w audio_path)
              ++ trace (resolve_speaker_count metadata)), JNull, 0, 0, [].
      split_and!; try close_shape.
      right. right. by exists e. }
  rewrite trace_try_except, outcome_try_except.
  destruct (run_stages_shape w audio_path output_dir speaker_count)
    as (k & j & Hk & Hj & Hjk & Ht & Ho).
  simpl length in *.
  exists (trace (load_metadata w audio_path)
          ++ trace (resolve_speaker_count metadata)), speaker_count, k, j.
  destruct Ho as [(ok & Ho & -> & -> & ->)|[e Ho]]; rewrite Ho, Ht.
  - exists []. split_and!; try close_shape. by left.
  - exists [EvLogError audio_path]. split_and!; try close_shape.
    right. by left.
Qed.

Lemma calls_of_script_front k speaker_count :
  calls (take k (stage_script speaker_count))
    `prefix_of` [Load; Transcribe; Align; Diarize; Label]
  /\ (13 <= k ->
      calls (take k (stage_script speaker_count))
      = [Load; Transcribe; Align; Diarize; Label]).
Proof.
  do 13 (destruct k as [|k];
         [split; [unfold prefix; simpl; by eexists | lia]|]).
  simpl. rewrite take_nil. split; [by exists [] | done].
Qed.

Lemma written_of_artifacts_front j audio_path output_dir :
  written (take j (artifact_writes audio_path output_dir))
    `prefix_of` written (artifact_writes audio_path output_dir)
  /\ (j = 0 -> written (take j (artifact_writes audio_path output_dir)) = []).
Proof.
  do 3 (destruct j as [|j];
        [split; [unfold prefix; simpl; by eexists | done]|]).
  simpl. rewrite take_nil. split; [by exists [] | done].
Qed.

Lemma no_calls_in_artifacts j audio_path output_dir :
  calls (take j (artifact_writes audio_path output_dir)) = [].
Proof. do 3 (destruct j as [|j]; [done|]). simpl. by rewrite take_nil. Qed.

Lemma no_writes_in_script k speaker_count :
  written (take k (stage_script speaker_count)) = [].
Proof. do 13 (destruct k as [|k]; [done|]). simpl. by rewrite take_nil. Qed.

End RunFacts.

(** In every run of [process_audio_file] the stages are invoked in the
    order Load, Transcribe, Align, Diarize, Label, each at most once and none
    skipped; the files opened for writing are a front part of
    [stem.json], [stem_conversation.json], [stem.txt]; and a file is opened
    only after all five stages were invoked, so a failing stage leaves no
    output behind. *)
Theorem stages_in_order_then_output (w : World) (audio_path output_dir : Path) :
  let tr := trace (process_audio_file w audio_path output_dir) in
  Shape.calls tr `prefix_of` [Load; Transcribe; Align; Diarize; Label]
  /\ Shape.written tr
       `prefix_of` Shape.written (Shape.artifact_writes audio_path output_dir)
  /\ (Shape.written tr <> [] ->
      Shape.calls tr = [Load; Transcribe; Align; Diarize; Label]).
Proof.
  intros tr. subst tr.
  destruct (process_audio_file_shape w audio_path output_dir)
    as (pre & sc & k & j & tail & Hpre & Hk & Hj & Hjk & -> & Hout).
  destruct (lookup_events_silent _ Hpre) as [Hc Hw].
  assert (Htail : Shape.calls tail = [] /\ Shape.written tail = []).
  { destruct Hout as [(_ & _ & _ & ->)|[(_ & ->)|(e & _ & _ & _ & ->)]]; done. }
  destruct Htail as [Htc Htw].
  rewrite !calls_app, !written_app, Hc, Hw, Htc, Htw,
    no_calls_in_artifacts, no_writes_in_script, !(right_id_L [] (++)).
  simpl app.
  destruct (calls_of_script_front k sc) as [Hprefix Hfull].
  destruct (written_of_artifacts_front j audio_path output_dir) as [Hwp Hw0].
  split; [done|]. split; [done|].
  intros Hsome. destruct Hjk as [->| ->]; [by rewrite Hw0 in Hsome|].
  by apply Hfull.
Qed.

Lemma stages_in_order_then_output_witness :
  let tr := trace (process_audio_file (Fixtures.happy Fixtures.no_sidecar)
                     Fixtures.recording Fixtures.output_dir) in
  Shape.calls tr = [Load; Transcribe; Align; Diarize; Label].
Proof.
  intros tr.
  destruct (stages_in_order_then_output (Fixtures.happy Fixtures.no_sidecar)
              Fixtures.recording Fixtures.output_dir) as (_ & _ & H).
  apply H. vm_compute. discriminate.
Defined.

(** What the result of [process_audio_file] tells: True means all five
    stages ran and the three files were opened, with no error logged after
    them; False means the last thing done was to log an error for this
    recording; and when the call raises, no stage was invoked and no file
    opened for writing. *)
Theorem process_audio_file_result (w : World) (audio_path output_dir : Path) :
  let run := process_audio_file w audio_path output_dir in
  (outcome run = Ok true ->
   Shape.calls (trace run) = [Load; Transcribe; Align; Diarize; Label]
   /\ Shape.written (trace run)
      = Shape.written (Shape.artifact_writes audio_path output_dir)
   /\ last (trace run) = Some (EvWrite (PathLib.child output_dir
                                          (PathLib.stem audio_path +:+ ".txt"))))
  /\ (outcome run = Ok false -> last (trace run) = Some (EvLogError audio_path))
  /\ (forall e, outcome run = Raise e ->
        Shape.calls (trace run) = [] /\ Shape.written (trace run) = []).
Proof.
  intros run. subst run.
  destruct (process_audio_file_shape w audio_path output_dir)
    as (pre & sc & k & j & tail & Hpre & Hk & Hj & Hjk & Ht & Hout).
  destruct (lookup_events_silent _ Hpre) as [Hc Hw].
  rewrite Ht. split_and!.
  - intros Ho.
    destruct Hout as [(_ & -> & -> & ->)|[(Hf & _)|(e & He & _)]];
      [|congruence..].
    rewrite !calls_app, !written_app, Hc, Hw. split_and!; [done..|].
    rewrite !last_app. done.
  - intros Ho.
    destruct Hout as [(Hf & _)|[(_ & ->)|(e & He & _)]]; [congruence| |congruence].
    by rewrite !last_app.
  - intros e Ho.
    destruct Hout as [(Hf & _)|[(Hf & _)|(e' & _ & -> & -> & ->)]];
      [congruence..|].
    by rewrite !calls_app, !written_app, Hc, Hw.
Qed.

Lemma process_audio_file_result_witness :
  let run := process_audio_file (Fixtures.happy Fixtures.no_sidecar)
               Fixtures.recording Fixtures.output_dir in
  Shape.calls (trace run) = [Load; Transcribe; Align; Diarize; Label]
  /\ Shape.written (trace run)
     = Shape.written (Shape.artifact_writes Fixtures.recording Fixtures.output_dir)
  /\ last (trace run)
     = Some (EvWrite (PathLib.child Fixtures.output_dir
                        (PathLib.stem Fixtures.recording +:+ ".txt"))).
Proof.
  intros run.
  destruct (process_audio_file_result (Fixtures.happy Fixtures.no_sidecar)
              Fixtures.recording Fixtures.output_dir) as (H & _).
  apply H. vm_compute. reflexivity.
Defined.

Section EscapeFacts.
Import Observe Shape.
Context (w : World).

Lemma getitem_raises v key e :
  Py.getitem v key = Raise e -> e = KeyError \/ e = TypeError.
Proof.
  destruct v; simpl; try (intros [= <-]; by right).
  destruct (Py.lookup_key _ _); [done|]. intros [= <-]. by left.
Qed.

Lemma iter_raises v e : Py.iter v = Raise e -> e = TypeError.
Proof. by destruct v; simpl; intros [= <-]. Qed.

Lemma print_attendees_raises attendees e :
  outcome (print_attendees attendees) = Raise e -> e = KeyError \/ e = TypeError.
Proof.
  induction attendees as [|attendee rest IH]; [done|].
  cbn [print_attendees]. rewrite outcome_lift_bind.
  destruct (Py.getitem attendee "name") eqn:Hname; [done|].
  intros [= <-]. by apply getitem_raises in Hname.
Qed.

Lemma record_truthy key items :
  Py.has_key key items = true -> Py.truthy (JObj items) = true.
Proof. by destruct items. Qed.

(** The statements before the [try], for a record that has the key. *)
Lemma resolve_speaker_count_outcome items v :
  Py.has_key "speaker_count" items = true ->
  Py.lookup_key "speaker_count" items = Some v ->
  outcome (resolve_speaker_count (JObj items))
  = if Py.has_key "attendees" items then
      match Py.getitem (JObj items) "attendees" with
      | Ok attendees =>
          match Py.iter attendees with
          | Ok people =>
              match outcome (print_attendees people) with
              | Ok _ => Ok v
              | Raise e => Raise e
              end
          | Raise e => Raise e
          end
      | Raise e => Raise e
      end
    else Ok v.
Proof.
  intros Hk Hv. unfold resolve_speaker_count.
  rewrite (record_truthy _ _ Hk).
  change (Py.contains "speaker_count" (JObj items))
    with (Ok (Py.has_key "speaker_count" items)).
  rewrite Hk, outcome_lift_bind.
  change (Py.getitem (JObj items) "speaker_count")
    with (match Py.lookup_key "speaker_count" items with
          | Some x => Ok x
          | None => Raise KeyError
          end).
  rewrite Hv, outcome_lift_bind.
  change (Py.contains "attendees" (JObj items))
    with (Ok (Py.has_key "attendees" items)).
  rewrite outcome_lift_bind.
  destruct (Py.has_key "attendees" items); [|done].
  rewrite outcome_bind, outcome_lift_bind.
  destruct (Py.getitem (JObj items) "attendees") as [attendees|e]; [|done].
  rewrite outcome_lift_bind.
  destruct (Py.iter attendees) as [people|e]; [|done].
  by destruct (outcome (print_attendees people)).
Qed.

Lemma resolve_speaker_count_record items :
  Py.has_key "speaker_count" items = true ->
  exists v,
    Py.lookup_key "speaker_count" items = Some v
    /\ (outcome (resolve_speaker_count (JObj items)) = Ok v
        \/ exists e,
             outcome (resolve_speaker_count (JObj items)) = Raise e
             /\ Py.has_key "attendees" items = true
             /\ (e = KeyError \/ e = TypeError)).
Proof.
  intros Hk. destruct (has_key_lookup _ _ Hk) as [v Hv]. exists v.
  split; [done|]. rewrite (resolve_speaker_count_outcome items v Hk Hv).
  destruct (Py.has_key "attendees" items) eqn:Ha; [|by left].
  destruct (Py.getitem (JObj items) "attendees") as [attendees|e] eqn:Hget.
  2:{ right. exists e. split_and!; try done.
      by apply getitem_raises in Hget. }
  destruct (Py.iter attendees) as [people|e] eqn:Hiter.
  2:{ right. exists e. split_and!; try done.
      right. by apply iter_raises in Hiter. }
  destruct (outcome (print_attendees people)) as [[]|e] eqn:Hprint.
  - by left.
  - right. exists e. split_and!; try done. by apply print_attendees_raises in Hprint.
Qed.

Lemma resolve_speaker_count_absent :
  outcome (resolve_speaker_count JNull) = Ok (JInt 2).
Proof. reflexivity. Qed.

(** Where an exception that leaves [process_audio_file] comes from. *)
Lemma process_audio_file_raise_origin audio_path output_dir e :
  outcome (process_audio_file w audio_path output_dir) = Raise e ->
  exists metadata location,
    outcome (load_metadata w audio_path) = Ok (metadata, location)
    /\ outcome (resolve_speaker_count metadata) = Raise e.
Proof.
  unfold process_audio_file. rewrite outcome_bind.
  destruct (outcome (load_metadata w audio_path)) as [[metadata location]|e'] eqn:Hl.
  2:{ rewrite load_metadata_outcome in Hl.
      by destruct (outcome (search_locations _ _ _)). }
  rewrite outcome_bind.
  destruct (outcome (resolve_speaker_count metadata)) as [sc|e'] eqn:Hr.
  - rewrite outcome_try_except.
    by destruct (outcome (run_stages _ _ _ _)).
  - intros [= <-]. by exists metadata, location.
Qed.

Lemma load_metadata_result wav_file metadata location_str :
  outcome (load_metadata w wav_file) = Ok (metadata, location_str) ->
  (metadata = JNull /\ location_str = "")
  \/ exists items location desc,
       (location, desc) ∈ metadata_locations wav_file
       /\ fs w location = Parsed (JObj items)
       /\ Py.has_key "speaker_count" items = true
       /\ metadata = JObj items
       /\ location_str = PathLib.to_str location.
Proof.
  rewrite load_metadata_outcome.
  destruct (outcome (search_locations w wav_file (metadata_locations wav_file)))
    as [r|e] eqn:Hsearch.
  - intros [= ->]. by apply (search_locations_result w wav_file _ _ _ Hsearch).
  - intros [= <- <-]. by left.
Qed.

(** The bounds, whatever the run does after the speaker count is known. *)
Lemma process_audio_file_bounds audio_path output_dir metadata location v :
  outcome (load_metadata w audio_path) = Ok (metadata, location) ->
  (forall sc, outcome (resolve_speaker_count metadata) = Ok sc -> sc = v) ->
  Forall (bounds_are v) (trace (process_audio_file w audio_path output_dir)).
Proof.
  intros Hl Hv. unfold process_audio_file. apply Forall_trace_bind.
  - eapply Forall_impl; [apply load_metadata_quiet | apply quiet_bounds].
  - intros [metadata' location'] Hok. rewrite Hl in Hok.
    injection Hok as <- <-.
    apply Forall_trace_bind.
    + eapply Forall_impl; [apply resolve_speaker_count_quiet | apply quiet_bounds].
    + intros speaker_count Hsc. rewrite (Hv _ Hsc).
      apply Forall_trace_try_except; [apply run_stages_bounds|].
      intros e. by repeat constructor.
Qed.

End EscapeFacts.

(** An exception leaves [process_audio_file] only from the printing of the
    attendees, which stands before the [try]: the record returned by
    [load_metadata] then has the key [attendees], and the exception is the
    KeyError or TypeError of an attendee without ['name'] or of an
    [attendees] value that is not a list of objects. *)
Theorem process_audio_file_escapes
    (w : World) (audio_path output_dir : Path) (e : exn) :
  outcome (process_audio_file w audio_path output_dir) = Raise e ->
  (e = KeyError \/ e = TypeError)
  /\ exists items location desc,
       (location, desc) ∈ metadata_locations audio_path
       /\ fs w location = Parsed (JObj items)
       /\ Py.has_key "speaker_count" items = true
       /\ Py.has_key "attendees" items = true.
Proof.
  intros Hraise.
  destruct (process_audio_file_raise_origin w _ _ _ Hraise)
    as (metadata & location_str & Hl & Hr).
  destruct (load_metadata_result w _ _ _ Hl)
    as [[-> _]|(items & location & desc & Hin & Hfs & Hk & -> & _)].
  - by rewrite resolve_speaker_count_absent in Hr.
  - destruct (resolve_speaker_count_record items Hk)
      as (v & _ & [Hok|(e' & He' & Ha & Hkind)]); [congruence|].
    rewrite Hr in He'. injection He' as <-.
    split; [done|]. by exists items, location, desc.
Qed.

Lemma process_audio_file_escapes_witness :
  outcome (process_audio_file (Fixtures.happy Cases.with_nameless_attendee)
             Fixtures.recording Fixtures.output_dir) = Raise KeyError
  /\ exists items location desc,
       (location, desc) ∈ metadata_locations Fixtures.recording
       /\ Cases.with_nameless_attendee location = Parsed (JObj items)
       /\ Py.has_key "speaker_count" items = true
       /\ Py.has_key "attendees" items = true.
Proof.
  assert (H : outcome (process_audio_file
                         (Fixtures.happy Cases.with_nameless_attendee)
                         Fixtures.recording Fixtures.output_dir)
              = Raise KeyError) by (vm_compute; reflexivity).
  split; [exact H|].
  exact (proj2 (process_audio_file_escapes _ _ _ _ H)).
Defined.

(** The [speaker_count] of the record that [load_metadata] returns is handed
    to the diarizer as it stands, as both bounds, whatever kind of value it
    is; a run that returns True has called the diarizer with it. *)
Theorem speaker_count_reaches_diarizer
    (w : World) (audio_path output_dir : Path)
    (items : list (string * json)) (location : string) :
  outcome (load_metadata w audio_path) = Ok (JObj items, location) ->
  exists v,
    Py.lookup_key "speaker_count" items = Some v
    /\ Forall (Observe.bounds_are v)
              (trace (process_audio_file w audio_path output_dir))
    /\ (outcome (process_audio_file w audio_path output_dir) = Ok true ->
        EvDiarizeBounds v v ∈ trace (process_audio_file w audio_path output_dir)).
Proof.
  intros Hl.
  destruct (load_metadata_result w _ _ _ Hl)
    as [[[=] _]|(items' & loc & desc & _ & _ & Hk & [= <-] & _)].
  destruct (resolve_speaker_count_record items Hk) as (v & Hv & Hres).
  exists v. split; [done|].
  assert (Hb : Forall (Observe.bounds_are v)
                 (trace (process_audio_file w audio_path output_dir))).
  { apply (process_audio_file_bounds w _ _ _ _ _ Hl).
    intros sc Hsc. destruct Hres as [Hok|(e & He & _)]; congruence. }
  split; [done|]. intros Htrue.
  destruct (process_audio_file_shape w audio_path output_dir)
    as (pre & sc & k & j & tail & _ & _ & _ & _ & Ht & Hout).
  destruct Hout as [(_ & -> & _)|[(Hf & _)|(e & He & _)]]; [|congruence..].
  assert (Hin : EvDiarizeBounds sc sc
                ∈ trace (process_audio_file w audio_path output_dir)).
  { rewrite Ht. apply elem_of_app. right. apply elem_of_app. left.
    simpl. do 11 apply list_elem_of_further. apply list_elem_of_here. }
  rewrite Forall_forall in Hb. destruct (Hb _ Hin) as [-> _]. exact Hin.
Qed.

Lemma speaker_count_reaches_diarizer_witness :
  EvDiarizeBounds (JStr "three") (JStr "three")
  ∈ trace (process_audio_file (Fixtures.happy Cases.with_worded_count)
             Fixtures.recording Fixtures.output_dir).
Proof.
  destruct (speaker_count_reaches_diarizer
              (Fixtures.happy Cases.with_worded_count)
              Fixtures.recording Fixtures.output_dir
              [("speaker_count", JStr "three")]
              (PathLib.to_str Fixtures.parent_sidecar))
    as (v & Hv & _ & Hin); [vm_compute; reflexivity|].
  injection Hv as <-. apply Hin. vm_compute. reflexivity.
Defined.

Section MappingFacts.
Local Arguments String.append !_ _ / : simpl nomatch.

Lemma label_inj (i j : nat) :
  "SPEAKER_" +:+ pretty i = "SPEAKER_" +:+ pretty j -> i = j.
Proof. simpl. intros [= H]. by apply (inj pretty). Qed.

(** The loop of [save_results] over [enumerate(attendees, i)], started
    with [speaker_mapping]. *)
Lemma fill_speaker_mapping_spec attendees :
  forall i speaker_mapping filled,
    outcome (fill_speaker_mapping i attendees speaker_mapping) = Ok filled ->
    (forall k attendee,
       attendees !! k = Some attendee ->
       exists name,
         Py.getitem attendee "name" = Ok name
         /\ filled !! ("SPEAKER_" +:+ pretty (i + k)) = Some name)
    /\ (forall key,
          (forall k, k < length attendees -> key <> "SPEAKER_" +:+ pretty (i + k)) ->
          filled !! key = speaker_mapping !! key).
Proof.
  induction attendees as [|attendee rest IH]; intros i speaker_mapping filled.
  - intros [= <-]. split; [by intros k attendee [=] | done].
  - cbn [fill_speaker_mapping]. rewrite outcome_lift_bind.
    destruct (Py.getitem attendee "name") as [name|e] eqn:Hname; [|done].
    intros Hrest. destruct (IH _ _ _ Hrest) as [Hin Hout]. split.
    + intros [|k] a Hk.
      * injection Hk as <-. exists name. split; [done|].
        rewrite Nat.add_0_r, Hout; [apply lookup_insert_eq|].
        intros k _ Heq. apply label_inj in Heq. lia.
      * destruct (Hin k a Hk) as [name' [? Hl]]. exists name'. split; [done|].
        by rewrite Nat.add_succ_r.
    + intros key Hkey. rewrite Hout.
      * apply lookup_insert_ne. intros Heq.
        apply (Hkey 0); [simpl; lia|]. by rewrite Nat.add_0_r.
      * intros k Hk. replace (S i + k) with (i + S k) by lia.
        apply Hkey. simpl. lia.
Qed.

End MappingFacts.

(** The speaker mapping that [save_results] builds from a list of attendees:
    the label of the attendee at position k (counted from 0) is "SPEAKER_"
    followed by the decimal digits of k+1, with no padding, and it maps to
    that attendee's name; no other key is in the mapping. *)
Theorem speaker_mapping_labels
    (attendees : list json) (speaker_mapping : gmap string json) :
  outcome (fill_speaker_mapping 1 attendees ∅) = Ok speaker_mapping ->
  (forall k attendee,
     attendees !! k = Some attendee ->
     exists name,
       Py.getitem attendee "name" = Ok name
       /\ speaker_mapping !! ("SPEAKER_" +:+ pretty (S k)) = Some name)
  /\ (forall key,
        (forall k, k < length attendees -> key <> "SPEAKER_" +:+ pretty (S k)) ->
        speaker_mapping !! key = None).
Proof.
  intros Hfill. destruct (fill_speaker_mapping_spec _ _ _ _ Hfill) as [Hin Hout].
  split; [exact Hin|].
  intros key Hkey. by rewrite (Hout key Hkey).
Qed.

Lemma speaker_mapping_labels_witness :
  exists speaker_mapping,
    outcome (fill_speaker_mapping 1
               [JObj [("name", JStr "Ana")]; JObj [("name", JStr "Ben")]] ∅)
    = Ok speaker_mapping
    /\ speaker_mapping !! "SPEAKER_2" = Some (JStr "Ben")
    /\ speaker_mapping !! "SPEAKER_00" = None.
Proof.
  eexists. split; [reflexivity|].
  match goal with
  | |- ?m !! _ = _ /\ _ =>
      destruct (speaker_mapping_labels
                  [JObj [("name", JStr "Ana")]; JObj [("name", JStr "Ben")]]
                  m eq_refl) as [Hin Hout]
  end.
  split.
  - destruct (Hin 1 _ eq_refl) as (name & [= <-] & Hl). exact Hl.
  - apply Hout. intros k Hk.
    destruct k as [|[|k]]; [discriminate | discriminate | simpl in Hk; lia].
Defined.

Section TranscribeRuns.
Import Observe Shape.
Context (w : World).

Lemma transcribe_run_stages_disciplined audio_path num_speakers tail :
  Forall quiet tail ->
  disciplined []
    (trace (Transcribe.run_stages w audio_path num_speakers) ++ tail).
Proof.
  intros Htail. unfold Transcribe.run_stages.
  pose proof held_ok_nil. pose proof held_ok_asr.
  pose proof held_ok_asr_aligner. pose proof held_ok_aligner.
  pose proof held_ok_diarizer.
  repeat first
    [ apply disciplined_emit; [done | done | simpl resident_step]
    | apply disciplined_lift; [intros ? | by apply disciplined_quiet] ].
  apply disciplined_quiet; [done|]. by apply Forall_app_2.
Qed.

Lemma transcribe_process_audio_file_disciplined audio_path num_speakers :
  disciplined []
    (trace (Transcribe.process_audio_file w audio_path num_speakers)).
Proof.
  unfold Transcribe.process_audio_file. rewrite trace_try_except.
  apply transcribe_run_stages_disciplined.
  destruct (outcome _); [constructor|].
  rewrite trace_emit_bind. by repeat constructor.
Qed.

Lemma two_writes_shape (a b : Path) :
  unfolds [] [EvWrite a; EvWrite b]
    (emit (EvWrite a);; lift (open_write w a);;
     emit (EvWrite b);; lift (open_write w b))
    (fun _ => True).
Proof.
  unfold unfolds.
  rewrite trace_emit_bind, outcome_emit_bind, trace_lift_bind, outcome_lift_bind.
  destruct (open_write w a) as [[]|e].
  2:{ exists 0, 1. split_and!; try done; try (simpl; lia).
      all: first [by right | right; by eexists]. }
  rewrite trace_emit_bind, outcome_emit_bind.
  change (outcome (lift (open_write w b))) with (open_write w b).
  exists 0, 2. split_and!; try done; try (simpl; lia).
  all: first [ by right
             | destruct (open_write w b) as [[]|e];
               [left; by exists tt | right; by eexists] ].
Qed.

Lemma transcribe_run_stages_shape audio_path num_speakers :
  unfolds (stage_script num_speakers) (json_writes audio_path)
          (Transcribe.run_stages w audio_path num_speakers)
          (fun _ => True).
Proof.
  unfold Transcribe.run_stages, stage_script, json_writes.
  repeat first [ apply unfolds_emit | apply unfolds_lift; intros ? ].
  apply two_writes_shape.
Qed.

Lemma transcribe_run_starts audio_path num_speakers :
  exists rest,
    trace (Transcribe.run_stages w audio_path num_speakers) = EvCall Load :: rest.
Proof. unfold Transcribe.run_stages. rewrite trace_emit_bind. by eexists. Qed.

(** A run of [process_audio_file] of [directory_transcribe], cut into the
    front part of the stage script it went through, the front part of the
    two JSON files, and the error log of the [except] clause. *)
Lemma transcribe_process_audio_file_shape audio_path num_speakers :
  let run := Transcribe.process_audio_file w audio_path num_speakers in
  exists k j tail,
    1 <= k <= 13 /\ j <= 2 /\ (j = 0 \/ k = 13)
    /\ trace run = take k (stage_script num_speakers)
                   ++ take j (json_writes audio_path) ++ tail
    /\ ((tail = [] /\ outcome run = Ok tt /\ k = 13 /\ j = 2)
        \/ (tail = [EvWrite Transcribe.errors_log]
            /\ outcome run = open_write w Transcribe.errors_log)).
Proof.
  intros run. subst run. unfold Transcribe.process_audio_file.
  rewrite trace_try_except, outcome_try_except.
  destruct (transcribe_run_starts audio_path num_speakers) as [rest Hstart].
  destruct (transcribe_run_stages_shape audio_path num_speakers)
    as (k & j & Hk & Hj & Hjk & Ht & Ho).
  simpl length in *.
  assert (1 <= k).
  { destruct k as [|k]; [|lia]. destruct Hjk as [->|[=]].
    by rewrite Hstart in Ht. }
  exists k, j.
  destruct Ho as [([] & Ho & _ & -> & ->)|[e Ho]]; rewrite Ho, Ht.
  - exists []. split_and!; try done; try lia.
    all: first [ by left | by rewrite ?(right_id_L [] (++)), <- ?(assoc_L (++)) ].
  - exists [EvWrite Transcribe.errors_log]. rewrite outcome_emit_bind.
    split_and!; try done; try lia.
    all: first [ by right | by rewrite <- ?(assoc_L (++)) ].
Qed.

Lemma loads_app a b : loads (a ++ b) = loads a + loads b.
Proof. unfold loads. by rewrite omap_app, length_app. Qed.

Lemma loads_of_script_front k num_speakers :
  1 <= k -> loads (take k (stage_script num_speakers)) = 1.
Proof.
  intros Hk. destruct k as [|k]; [lia|].
  do 12 (destruct k as [|k]; [done|]). simpl. by rewrite take_nil.
Qed.

Lemma loads_of_json_writes j audio_path :
  loads (take j (json_writes audio_path)) = 0.
Proof. do 2 (destruct j as [|j]; [done|]). simpl. by rewrite take_nil. Qed.

Lemma calls_of_json_writes j audio_path :
  calls (take j (json_writes audio_path)) = [].
Proof. do 2 (destruct j as [|j]; [done|]). simpl. by rewrite take_nil. Qed.

Lemma written_of_json_writes_front j audio_path :
  j <= 2 ->
  written (take j (json_writes audio_path))
  = take j (written (json_writes audio_path)).
Proof. intros Hj. by do 3 (destruct j as [|j]; [done|]); lia. Qed.

(** One file processed by [directory_transcribe]: Load is invoked once, and
    the call returns when the error log, if it is needed, can be opened. *)
Lemma transcribe_one_file audio_path num_speakers :
  loads (trace (Transcribe.process_audio_file w audio_path num_speakers)) = 1
  /\ (open_write w Transcribe.errors_log = Ok tt ->
      outcome (Transcribe.process_audio_file w audio_path num_speakers) = Ok tt).
Proof.
  destruct (transcribe_process_audio_file_shape audio_path num_speakers)
    as (k & j & tail & Hk & Hj & Hjk & Ht & Hout).
  rewrite Ht, !loads_app, loads_of_script_front, loads_of_json_writes by lia.
  destruct Hout as [(-> & Ho & _)|(-> & Ho)]; rewrite Ho; done.
Qed.

Lemma accepted_get_speaker_count replies :
  match Transcribe.get_speaker_count replies with
  | Some (count, rest) =>
      Transcribe.accepted replies = count :: Transcribe.accepted rest
  | None => Transcribe.accepted replies = []
  end.
Proof.
  induction replies as [|[|count] rest IH]; simpl; [done | done |].
  destruct ((1 <=? count)%Z && (count <=? 10)%Z); [done|]. exact IH.
Qed.

Lemma process_each_cons wav_path rest replies :
  Transcribe.process_each w (wav_path :: rest) replies
  = match Transcribe.get_speaker_count replies with
    | None => mret None
    | Some (num_speakers, replies') =>
        Transcribe.process_audio_file w wav_path (JInt num_speakers);;
        Transcribe.process_each w rest replies'
    end.
Proof. reflexivity. Qed.

End TranscribeRuns.

(** [directory_transcribe.process_audio_file] manages the models as the
    class does: the transcription model stays resident through Align, both
    models are released before the diarization model is built, never more
    than two are resident, and the diarization model is resident alone. *)
Theorem transcribe_model_residency
    (w : World) (audio_path : Path) (num_speakers : json) :
  let tr := trace (Transcribe.process_audio_file w audio_path num_speakers) in
  (forall pre post,
     tr = pre ++ post ->
     length (Observe.resident pre) <= 2
     /\ (DIARIZER ∈ Observe.resident pre -> Observe.resident pre = [DIARIZER]))
  /\ (forall pre post,
        tr = pre ++ EvCall Align :: post -> Observe.resident pre = [ASR; ALIGNER])
  /\ (forall pre post,
        tr = pre ++ EvBind DIARIZER :: post -> Observe.resident pre = [])
  /\ (forall pre post,
        tr = pre ++ EvCall Diarize :: post -> Observe.resident pre = [DIARIZER]).
Proof.
  intros tr.
  pose proof (transcribe_process_audio_file_disciplined w audio_path num_speakers)
    as H.
  fold tr in H. split_and!; intros pre post Htr; rewrite Htr in H.
  - by apply disciplined_prefix in H.
  - by apply disciplined_event in H.
  - by apply disciplined_event in H.
  - by apply disciplined_event in H.
Qed.

Lemma transcribe_model_residency_witness :
  let tr := trace (Transcribe.process_audio_file
                     (Fixtures.happy Fixtures.no_sidecar)
                     Fixtures.recording (JInt 2)) in
  Observe.resident (take 4 tr) = [ASR; ALIGNER].
Proof.
  intros tr.
  destruct (transcribe_model_residency (Fixtures.happy Fixtures.no_sidecar)
              Fixtures.recording (JInt 2)) as (_ & Halign & _).
  apply (Halign (take 4 tr) (list.drop 5 tr)).
  vm_compute. reflexivity.
Defined.

(** What [directory_transcribe.process_audio_file] leaves behind: the stages
    are invoked in order, none skipped; unless the error log was opened the
    run went through all five stages and opened the two JSON files; and an
    exception leaves the function only when the error log cannot be opened,
    in which case it is the exception of that [open]. *)
Theorem transcribe_failures_go_to_log
    (w : World) (audio_path : Path) (num_speakers : json) :
  let run := Transcribe.process_audio_file w audio_path num_speakers in
  Shape.calls (trace run) `prefix_of` [Load; Transcribe; Align; Diarize; Label]
  /\ (Transcribe.errors_log ∉ Shape.written (trace run) ->
      outcome run = Ok tt
      /\ Shape.calls (trace run) = [Load; Transcribe; Align; Diarize; Label]
      /\ Shape.written (trace run)
         = [Transcribe.transcript_json_path audio_path;
            Transcribe.conversation_json_path audio_path])
  /\ (forall e, outcome run = Raise e ->
        open_write w Transcribe.errors_log = Raise e
        /\ last (trace run) = Some (EvWrite Transcribe.errors_log)).
Proof.
  intros run. subst run.
  destruct (transcribe_process_audio_file_shape w audio_path num_speakers)
    as (k & j & tail & Hk & Hj & Hjk & Ht & Hout).
  rewrite Ht, !calls_app, !written_app, calls_of_json_writes,
    no_writes_in_script.
  destruct (calls_of_script_front k num_speakers) as [Hprefix Hfull].
  destruct Hout as [(-> & Ho & -> & ->)|(-> & Ho)]; rewrite Ho.
  - split_and!; [done..|]. intros e [=].
  - simpl Shape.calls. rewrite !(right_id_L [] (++)). split_and!; [done| |].
    + intros Hnot. exfalso. apply Hnot. simpl.
      apply elem_of_app. right. apply list_elem_of_here.
    + intros e He. split; [done|]. by rewrite !last_app.
Qed.

Lemma transcribe_failures_go_to_log_witness :
  let run := Transcribe.process_audio_file Cases.align_fails_read_only
               Fixtures.recording (JInt 2) in
  open_write Cases.align_fails_read_only Transcribe.errors_log = Raise OSError
  /\ last (trace run) = Some (EvWrite Transcribe.errors_log).
Proof.
  intros run.
  destruct (transcribe_failures_go_to_log Cases.align_fails_read_only
              Fixtures.recording (JInt 2)) as (_ & _ & H).
  apply H. vm_compute. reflexivity.
Defined.

(** The loop of [main] in [directory_transcribe]: when the error log can
    be opened and the operator gives at least as many acceptable counts as
    there are files, no failure stops the loop: it returns, Load was invoked
    once per file, and exactly one accepted count per file was used up. *)
Theorem main_attempts_every_file
    (w : World) (wav_files : list Path) (replies : list Transcribe.reply) :
  open_write w Transcribe.errors_log = Ok tt ->
  length wav_files <= length (Transcribe.accepted replies) ->
  (exists rest,
     outcome (Transcribe.process_each w wav_files replies) = Ok (Some rest)
     /\ Transcribe.accepted rest
        = drop (length wav_files) (Transcribe.accepted replies))
  /\ Shape.loads (trace (Transcribe.process_each w wav_files replies))
     = length wav_files.
Proof.
  intros Hlog. revert replies.
  induction wav_files as [|wav_path files IH]; intros replies Hlen.
  - split; [by exists replies | done].
  - rewrite process_each_cons.
    pose proof (accepted_get_speaker_count replies) as Hacc.
    destruct (Transcribe.get_speaker_count replies) as [[count replies']|].
    2:{ rewrite Hacc in Hlen. simpl in Hlen. lia. }
    rewrite Hacc in Hlen. simpl in Hlen.
    destruct (IH replies' ltac:(lia)) as [(rest & Ho & Hrest) Hloads].
    destruct (transcribe_one_file w wav_path (JInt count)) as [Hone Hok].
    rewrite trace_bind, outcome_bind, (Hok Hlog), loads_app, Hone, Hloads.
    split; [|done]. exists rest. split; [done|]. by rewrite Hacc.
Qed.

Lemma main_attempts_every_file_witness :
  Shape.loads
    (trace (Transcribe.process_each Cases.align_fails
              [Fixtures.first; Fixtures.second]
              [Transcribe.Number 0; Transcribe.Number 2;
               Transcribe.NotANumber; Transcribe.Number 3]))
  = 2.
Proof.
  apply (main_attempts_every_file Cases.align_fails
           [Fixtures.first; Fixtures.second]
           [Transcribe.Number 0; Transcribe.Number 2;
            Transcribe.NotANumber; Transcribe.Number 3]);
    [reflexivity | simpl; lia].
Defined.

(** When the error log cannot be opened, the exception of the first failing
    file leaves the loop of [main]: the files after it are not touched. *)
Theorem main_stops_when_log_fails
    (w : World) (wav_path : Path) (rest : list Path)
    (replies replies' : list Transcribe.reply) (count : Z) (e : exn) :
  Transcribe.get_speaker_count replies = Some (count, replies') ->
  outcome (Transcribe.process_audio_file w wav_path (JInt count)) = Raise e ->
  outcome (Transcribe.process_each w (wav_path :: rest) replies) = Raise e
  /\ trace (Transcribe.process_each w (wav_path :: rest) replies)
     = trace (Transcribe.process_audio_file w wav_path (JInt count)).
Proof.
  intros Hcount Hraise. rewrite process_each_cons, Hcount.
  rewrite trace_bind, outcome_bind, Hraise.
  split; [done|]. by rewrite (right_id_L [] (++)).
Qed.

Lemma main_stops_when_log_fails_witness :
  outcome (Transcribe.process_each Cases.align_fails_read_only
             [Fixtures.first; Fixtures.second]
             [Transcribe.Number 2; Transcribe.Number 3])
  = Raise OSError.
Proof.
  apply (main_stops_when_log_fails Cases.align_fails_read_only
           Fixtures.first [Fixtures.second]
           [Transcribe.Number 2; Transcribe.Number 3]
           [Transcribe.Number 3] 2 OSError);
    [reflexivity | vm_compute; reflexivity].
Defined.

Section OuterHandler.
Import Observe.
Context (w : World).

Lemma process_one_failed n i wav_path successful failed :
  recording_succeeds w wav_path = false ->
  outcome (process_one w n i wav_path (successful, failed))
  = Ok (successful, S failed).
Proof. intros H. by rewrite process_one_outcome, H. Qed.

End OuterHandler.

(** The two failures that the [try] of [process_audio_file] does not cover
    are caught by the loop of [process_all_files]. When the output directory
    cannot be created, the recording is counted as failed and logged, and
    neither metadata lookup nor any stage takes place. When printing the
    attendees raises, the recording is counted as failed and the loop logs
    the error after what [process_audio_file] did. A recording for which
    [process_audio_file] returns False is counted as failed and not logged a
    second time by the loop. *)
Theorem loop_catches_what_escapes
    (w : World) (n i : nat) (wav_path : Path) (successful failed : nat) :
  let output_dir := PathLib.child output_base_dir
                      (Naming.dir_name (PathLib.stem wav_path)) in
  let run := process_audio_file w wav_path output_dir in
  let step := process_one w n i wav_path (successful, failed) in
  (forall e, mkdir w output_dir = Raise e ->
     outcome step = Ok (successful, S failed)
     /\ trace step = [EvBanner i n; EvMkdir output_dir; EvLogError wav_path])
  /\ (forall e, mkdir w output_dir = Ok tt -> outcome run = Raise e ->
        outcome step = Ok (successful, S failed)
        /\ trace step = EvBanner i n :: EvMkdir output_dir :: trace run
                        ++ [EvLogError wav_path])
  /\ (mkdir w output_dir = Ok tt -> outcome run = Ok false ->
        outcome step = Ok (successful, S failed)
        /\ trace step = EvBanner i n :: EvMkdir output_dir :: trace run).
Proof.
  intros output_dir run step. subst step run output_dir.
  split_and!.
  - intros e Hmk. split.
    + apply process_one_failed. unfold Observe.recording_succeeds. by rewrite Hmk.
    + by rewrite process_one_trace, Hmk.
  - intros e Hmk Hrun. split.
    + apply process_one_failed. unfold Observe.recording_succeeds.
      by rewrite Hmk, Hrun.
    + by rewrite process_one_trace, Hmk, Hrun.
  - intros Hmk Hrun. split.
    + apply process_one_failed. unfold Observe.recording_succeeds.
      by rewrite Hmk, Hrun.
    + by rewrite process_one_trace, Hmk, Hrun, (right_id_L [] (++)).
Qed.

Lemma loop_catches_what_escapes_witness :
  outcome (process_one Cases.no_directories 3 1 Fixtures.first (0, 0))
  = Ok (0, 1)
  /\ trace (process_one Cases.no_directories 3 1 Fixtures.first (0, 0))
     = [EvBanner 1 3;
        EvMkdir (PathLib.child output_base_dir
                   (Naming.dir_name (PathLib.stem Fixtures.first)));
        EvLogError Fixtures.first].
Proof.
  destruct (loop_catches_what_escapes Cases.no_directories 3 1
              Fixtures.first 0 0) as (H & _).
  apply (H OSError). reflexivity.
Defined.

Section CandidateOrder.
Import Observe.
Context (w : World).

Lemma search_locations_first_record wav_file before location desc after items :
  Forall (fun l => examine (fs w l.1) = Miss) before ->
  fs w location = Parsed (JObj items) ->
  Py.has_key "speaker_count" items = true ->
  outcome (search_locations w wav_file (before ++ (location, desc) :: after))
    = Ok (JObj items, PathLib.to_str location)
  /\ probed (trace (search_locations w wav_file
                      (before ++ (location, desc) :: after)))
     = map fst before ++ [location].
Proof.
  intros Hmiss Hfs Hkey.
  destruct (search_locations_skip w wav_file before ((location, desc) :: after) Hmiss)
    as [-> ->].
  rewrite search_locations_cons, Hfs, (examine_valid _ Hkey).
  split; [done|]. unfold trace. cbn [fst]. by rewrite probed_visit.
Qed.

Lemma miss_cases st :
  st = Missing
  \/ (exists v, st = Parsed v /\ Py.contains "speaker_count" v = Ok false) ->
  examine st = Miss.
Proof. intros [->|(v & -> & Hv)]; simpl; [done | by rewrite Hv]. Qed.

End CandidateOrder.

(** The candidates are tried in their order and the first record decides:
    when every candidate before one is missing or parses to a value without
    [speaker_count], and that one holds an object with the key,
    [load_metadata] returns that object and that location; the existence of
    the candidates up to it was tested, in order, and of none after it. *)
Theorem first_record_in_order_wins
    (w : World) (wav_file : Path)
    (before after : list (Path * string)) (location : Path) (desc : string)
    (items : list (string * json)) :
  metadata_locations wav_file = before ++ (location, desc) :: after ->
  Forall (fun l => fs w l.1 = Missing
                   \/ exists v, fs w l.1 = Parsed v
                                /\ Py.contains "speaker_count" v = Ok false)
         before ->
  fs w location = Parsed (JObj items) ->
  Py.has_key "speaker_count" items = true ->
  outcome (load_metadata w wav_file) = Ok (JObj items, PathLib.to_str location)
  /\ Observe.probed (trace (load_metadata w wav_file))
     = map fst before ++ [location].
Proof.
  intros Hsplit Hbefore Hfs Hkey.
  assert (Hmiss : Forall (fun l => Observe.examine (fs w l.1) = Observe.Miss) before).
  { eapply Forall_impl; [exact Hbefore|]. intros l. apply miss_cases. }
  destruct (search_locations_first_record w wav_file before location desc after
              items Hmiss Hfs Hkey) as [Ho Hp].
  rewrite load_metadata_outcome, load_metadata_probed, Hsplit, Ho, Hp. done.
Qed.

Lemma first_record_in_order_wins_witness :
  outcome (load_metadata (Fixtures.happy Cases.root_and_output) Fixtures.recording)
  = Ok (Fixtures.four_speakers, "/workspace/audio/rec_metadata.json")
  /\ Observe.probed (trace (load_metadata (Fixtures.happy Cases.root_and_output)
                              Fixtures.recording))
     = [Fixtures.parent_sidecar; Fixtures.root_sidecar].
Proof.
  apply (first_record_in_order_wins (Fixtures.happy Cases.root_and_output)
           Fixtures.recording
           [(Fixtures.parent_sidecar, "parent directory")]
           [(Fixtures.output_dir ++ ["rec_metadata.json"], "output directory")]
           Fixtures.root_sidecar "workspace root"
           [("speaker_count", JInt 4)]).
  - reflexivity.
  - constructor; [by left | constructor].
  - reflexivity.
  - reflexivity.
Defined.

Lemma turn_speakers_are_squeezed_witness :
  map speaker (Conversation.save_conversation Scenario.segments Scenario.speaker_map)
  = Artifacts.squeeze
      (map (Conversation.mapped_speaker Scenario.speaker_map) Scenario.segments).
Proof.
  exact (proj1 (turn_speakers_are_squeezed Scenario.segments Scenario.speaker_map)).
Defined.

Section LegacyRuns.
Import Observe Shape.
Context (w : World).

Lemma one_write_shape (a : Path) :
  unfolds [] [EvWrite a] (emit (EvWrite a);; lift (open_write w a))
    (fun _ => True).
Proof.
  unfold unfolds. rewrite trace_emit_bind, outcome_emit_bind.
  change (outcome (lift (open_write w a))) with (open_write w a).
  exists 0, 1. split_and!; try done; try (simpl; lia).
  all: first [ by right
             | destruct (open_write w a) as [[]|e];
               [left; by exists tt | right; by eexists] ].
Qed.

Lemma legacy_run_stages_shape audio_path num_speakers :
  unfolds (stage_script num_speakers) [EvWrite (Legacy.transcript_path audio_path)]
          (Legacy.run_stages w audio_path num_speakers)
          (fun _ => True).
Proof.
  unfold Legacy.run_stages, stage_script.
  repeat first [ apply unfolds_emit | apply unfolds_lift; intros ? ].
  apply one_write_shape.
Qed.

Lemma legacy_run_starts audio_path num_speakers :
  exists rest,
    trace (Legacy.run_stages w audio_path num_speakers) = EvCall Load :: rest.
Proof. unfold Legacy.run_stages. rewrite trace_emit_bind. by eexists. Qed.

Lemma legacy_process_audio_file_shape audio_path num_speakers :
  let run := Legacy.process_audio_file w audio_path num_speakers in
  outcome run = Ok tt
  /\ exists k j,
       1 <= k <= 13 /\ j <= 1 /\ (j = 0 \/ k = 13)
       /\ trace run = take k (stage_script num_speakers)
                      ++ take j [EvWrite (Legacy.transcript_path audio_path)].
Proof.
  intros run. subst run. unfold Legacy.process_audio_file.
  rewrite trace_try_except, outcome_try_except.
  destruct (legacy_run_starts audio_path num_speakers) as [rest Hstart].
  destruct (legacy_run_stages_shape audio_path num_speakers)
    as (k & j & Hk & Hj & Hjk & Ht & Ho).
  simpl length in *.
  assert (1 <= k).
  { destruct k as [|k]; [|lia]. destruct Hjk as [->|[=]].
    by rewrite Hstart in Ht. }
  split.
  - by destruct (outcome (Legacy.run_stages w audio_path num_speakers)) as [[]|].
  - exists k, j. split_and!; try done; try lia.
    rewrite Ht.
    destruct (outcome (Legacy.run_stages w audio_path num_speakers));
      apply (right_id_L [] (++)).
Qed.

Lemma legacy_process_each_cons wav_path rest replies :
  Legacy.process_each w (wav_path :: rest) replies
  = match Transcribe.get_speaker_count replies with
    | None => mret None
    | Some (num_speakers, replies') =>
        Legacy.process_audio_file w wav_path (JInt num_speakers);;
        Legacy.process_each w rest replies'
    end.
Proof. reflexivity. Qed.

Lemma legacy_one_file audio_path num_speakers :
  loads (trace (Legacy.process_audio_file w audio_path num_speakers)) = 1.
Proof.
  destruct (legacy_process_audio_file_shape audio_path num_speakers)
    as (_ & k & j & Hk & Hj & Hjk & ->).
  rewrite loads_app, loads_of_script_front by lia.
  by do 2 (destruct j as [|j]; [done|]); lia.
Qed.

End LegacyRuns.

(** The older script's [process_audio_file] swallows every failure: it
    always returns; its stages are invoked in order, none skipped; and the
    only file it can open for writing is the recording's path with the
    suffix replaced by [.txt], opened after all five stages were invoked. *)
Theorem legacy_run_never_raises
    (w : World) (audio_path : Path) (num_speakers : json) :
  let run := Legacy.process_audio_file w audio_path num_speakers in
  outcome run = Ok tt
  /\ Shape.calls (trace run) `prefix_of` [Load; Transcribe; Align; Diarize; Label]
  /\ (Shape.written (trace run) = []
      \/ (Shape.written (trace run) = [Legacy.transcript_path audio_path]
          /\ Shape.calls (trace run) = [Load; Transcribe; Align; Diarize; Label])).
Proof.
  intros run. subst run.
  destruct (legacy_process_audio_file_shape w audio_path num_speakers)
    as (Ho & k & j & Hk & Hj & Hjk & ->).
  split; [done|].
  rewrite !calls_app, !written_app, no_writes_in_script.
  destruct (calls_of_script_front k num_speakers) as [Hprefix Hfull].
  destruct j as [|[|j]]; [| |lia]; simpl; rewrite (right_id_L [] (++)).
  - split; [done|]. by left.
  - split; [done|]. right. split; [done|].
    apply Hfull. destruct Hjk as [[=]| ->]. lia.
Qed.

(** The loop of the older script's [main] cannot be stopped by a failing
    recording: with at least as many acceptable counts as files it returns,
    having invoked Load once per file and used one accepted count per file. *)
Theorem legacy_main_attempts_every_file
    (w : World) (wav_files : list Path) (replies : list Transcribe.reply) :
  length wav_files <= length (Transcribe.accepted replies) ->
  (exists rest,
     outcome (Legacy.process_each w wav_files replies) = Ok (Some rest)
     /\ Transcribe.accepted rest
        = drop (length wav_files) (Transcribe.accepted replies))
  /\ Shape.loads (trace (Legacy.process_each w wav_files replies))
     = length wav_files.
Proof.
  revert replies.
  induction wav_files as [|wav_path files IH]; intros replies Hlen.
  - split; [by exists replies | done].
  - rewrite legacy_process_each_cons.
    pose proof (accepted_get_speaker_count replies) as Hacc.
    destruct (Transcribe.get_speaker_count replies) as [[count replies']|].
    2:{ rewrite Hacc in Hlen. simpl in Hlen. lia. }
    rewrite Hacc in Hlen. simpl in Hlen.
    destruct (IH replies' ltac:(lia)) as [(rest & Ho & Hrest) Hloads].
    destruct (legacy_process_audio_file_shape w wav_path (JInt count)) as [Hok _].
    rewrite trace_bind, outcome_bind, Hok, loads_app, legacy_one_file, Hloads.
    split; [|done]. exists rest. split; [done|]. by rewrite Hacc.
Qed.

Lemma legacy_main_attempts_every_file_witness :
  Shape.loads
    (trace (Legacy.process_each Cases.align_fails_read_only
              [Fixtures.first; Fixtures.second]
              [Transcribe.Number 11; Transcribe.Number 2; Transcribe.Number 3]))
  = 2.
Proof.
  apply (legacy_main_attempts_every_file Cases.align_fails_read_only
           [Fixtures.first; Fixtures.second]
           [Transcribe.Number 11; Transcribe.Number 2; Transcribe.Number 3]).
  simpl. lia.
Defined.
